(** * SPFlow: a shallow embedding of selected operations

    The development follows the repository module by module:

    - [Graph]      : [spn/structure/graph/node.py] (legacy circuit graph)
    - [Histograms] : [spn/leaves/Histograms.py] (legacy histogram leaf)
    - [PartitionSampling] :
        [spflow/base/sampling/spn/layers/partition_layer.py]
    - [HypergeometricLayers] :
        [spflow/tensorly/structure/general/layers/leaves/parametric/hypergeometric.py]
    - [LayerInference] : log-likelihood of sum nodes and sum layers, from
        the specification (the torch inference modules are not among the
        sources; [tests/torch/inference/spn/layers/test_layer.py] is)
    - [GeometricLearning] :
        [spflow/torch/learning/general/nodes/leaves/parametric/geometric.py]

    Python floats are idealised as rationals ([Q]); a float that is not a
    finite number (NaN, an infinity) is written [None] where the code can
    produce or receive one, and the weights of a legacy sum node, which
    [equals] compares, are finite, infinite or NaN.  Python objects that are mutated through an
    alias live in an explicit heap, addressed by natural numbers. *)

From Stdlib Require Import QArith ZArith List String Lia Bool Permutation.
From Stdlib Require Import Qabs Qminmax.
From stdpp Require Import gmap.
From Equations Require Import Equations.
Import ListNotations.

Set Default Proof Using "Type".
Set Warnings "-register-all".

(** ** Python exceptions and results *)

Inductive exn : Type :=
| ValueError
| IndexError
| TypeError
| KeyError
| RuntimeError.

Inductive result (A : Type) : Type :=
| Ok (a : A)
| Raise (e : exn).
Arguments Ok {A} a.
Arguments Raise {A} e.

Definition bind {A B : Type} (m : result A) (f : A -> result B) : result B :=
  match m with
  | Ok a => f a
  | Raise e => Raise e
  end.

Notation "'do' x <- m ; k" := (bind m (fun x => k))
  (at level 10, x name, m at level 100, k at level 200).

Definition raises {A : Type} (m : result A) : Prop :=
  exists e, m = Raise e.

(** Python's [all(map(f, xs, ys))]: [map] over two iterables stops with the
    shorter one, so the surplus of the longer list is never looked at. *)
Fixpoint all_map2 {A B : Type} (f : A -> B -> bool) (xs : list A) (ys : list B) : bool :=
  match xs, ys with
  | x :: xs', y :: ys' => f x y && all_map2 f xs' ys'
  | _, _ => true
  end.

(** [==] on Python lists of integers. *)
Fixpoint list_Z_eqb (xs ys : list Z) : bool :=
  match xs, ys with
  | [], [] => true
  | x :: xs', y :: ys' => Z.eqb x y && list_Z_eqb xs' ys'
  | _, _ => false
  end.

(** ** spn/structure/graph/node.py *)

Module Graph.

(** A Python float, as the unchecked [weights: List[float]] of a sum node
    can hold it: a finite number (idealised as a rational), an infinity or
    NaN. *)
Inductive pyfloat : Type :=
| Fin (q : Q)
| Inf (negative : bool)
| NaN.

(** The four classes.  [oid] is the identity of the Python object (what
    [set] hashes and compares, as the classes define neither [__eq__] nor
    [__hash__]); [LeafNode.__init__] passes [children=[]]. *)
Inductive Node : Type :=
| BaseNode (oid : nat) (children : list Node) (scope : list Z)
| ProductNode (oid : nat) (children : list Node) (scope : list Z)
| SumNode (oid : nat) (children : list Node) (scope : list Z) (weights : list pyfloat)
| LeafNode (oid : nat) (scope : list Z).

Inductive cls : Type := CNode | CProductNode | CSumNode | CLeafNode.

Definition type_of (n : Node) : cls :=
  match n with
  | BaseNode _ _ _ => CNode
  | ProductNode _ _ _ => CProductNode
  | SumNode _ _ _ _ => CSumNode
  | LeafNode _ _ => CLeafNode
  end.

Definition cls_is (a b : cls) : bool :=
  match a, b with
  | CNode, CNode | CProductNode, CProductNode
  | CSumNode, CSumNode | CLeafNode, CLeafNode => true
  | _, _ => false
  end.

Definition oid_of (n : Node) : nat :=
  match n with
  | BaseNode i _ _ | ProductNode i _ _ | SumNode i _ _ _ | LeafNode i _ => i
  end.

Definition children (n : Node) : list Node :=
  match n with
  | BaseNode _ cs _ | ProductNode _ cs _ | SumNode _ cs _ _ => cs
  | LeafNode _ _ => []
  end.

Definition scope (n : Node) : list Z :=
  match n with
  | BaseNode _ _ s | ProductNode _ _ s | SumNode _ _ s _ | LeafNode _ s => s
  end.

(** [math.isclose(x, y, rel_tol=r)] with the default [abs_tol=0.0]: on
    finite numbers [abs(x-y) <= max(r * max(abs(x), abs(y)), 0.0)]; an
    infinity is close to itself only ([x == y]), and NaN is close to
    nothing, itself included. *)
Definition isclose (rel_tol : Q) (x y : pyfloat) : bool :=
  match x, y with
  | Fin a, Fin b => Qle_bool (Qabs (a - b)) (Qmax (rel_tol * Qmax (Qabs a) (Qabs b)) 0)
  | Inf s, Inf s' => Bool.eqb s s'
  | _, _ => false
  end.

Definition rel_tol_equals : Q := 1 # 100000.

(** [Node.equals] and its override [SumNode.equals]; the call [x.equals(y)]
    on the children dispatches on the class of [x]. *)
Fixpoint equals (self other : Node) {struct self} : bool :=
  let node_equals (cs : list Node) (sc : list Z) : bool :=
    cls_is (type_of self) (type_of other)
    && list_Z_eqb sc (scope other)
    && (fix all_children (xs ys : list Node) {struct xs} : bool :=
          match xs, ys with
          | x :: xs', y :: ys' => equals x y && all_children xs' ys'
          | _, _ => true
          end) cs (children other) in
  match self with
  | BaseNode _ cs sc => node_equals cs sc
  | ProductNode _ cs sc => node_equals cs sc
  | LeafNode _ sc => node_equals [] sc
  | SumNode _ cs sc ws =>
      match other with
      | SumNode _ _ _ ws' =>
          node_equals cs sc
          && all_map2 (isclose rel_tol_equals) ws ws'
          && Nat.eqb (length ws) (length ws')
      | _ => false
      end
  end.

Definition is_nan (w : pyfloat) : bool :=
  match w with
  | NaN => true
  | _ => false
  end.

(** No weight of [n], or of a node below [n], is NaN. *)
Fixpoint nan_free (n : Node) : bool :=
  let fix all_free (l : list Node) : bool :=
    match l with
    | [] => true
    | c :: l' => nan_free c && all_free l'
    end in
  match n with
  | BaseNode _ cs _ | ProductNode _ cs _ => all_free cs
  | SumNode _ cs _ ws => forallb (fun w => negb (is_nan w)) ws && all_free cs
  | LeafNode _ _ => true
  end.

(** *** Breadth-first helpers *)

Definition mem_oid (n : Node) (l : list Node) : bool :=
  existsb (fun m => Nat.eqb (oid_of m) (oid_of n)) l.

(** The elements of [set(l)]: one entry per object. *)
Fixpoint dedup (l : list Node) : list Node :=
  match l with
  | [] => []
  | n :: l' => if mem_oid n l' then dedup l' else n :: dedup l'
  end.

(** The elements of [set(cs) - set(nodes)]. *)
Definition set_difference (cs nodes : list Node) : list Node :=
  List.filter (fun c => negb (mem_oid c nodes)) (dedup cs).

(** [list(s)] enumerates a set in an order Python does not specify: the
    traversals take it as an arbitrary rearrangement. *)
Record set_order : Type := {
  enumerate :> list Node -> list Node;
  enumerate_perm : forall l, Permutation (enumerate l) l
}.

Fixpoint size (n : Node) : nat :=
  let fix sizes (l : list Node) : nat :=
    match l with
    | [] => 0
    | c :: l' => size c + sizes l'
    end in
  match n with
  | BaseNode _ cs _ | ProductNode _ cs _ | SumNode _ cs _ _ => S (sizes cs)
  | LeafNode _ _ => 1
  end.

Definition total_size (l : list Node) : nat :=
  fold_right (fun n acc => size n + acc) 0 l.

(** Every node below [n], [n] included, is a [SumNode], a [ProductNode] or a
    [LeafNode]. *)
Fixpoint known (n : Node) : bool :=
  let fix all_known (l : list Node) : bool :=
    match l with
    | [] => true
    | c :: l' => known c && all_known l'
    end in
  match n with
  | BaseNode _ _ _ => false
  | ProductNode _ cs _ | SumNode _ cs _ _ => all_known cs
  | LeafNode _ _ => true
  end.

Lemma total_size_app l1 l2 :
  total_size (l1 ++ l2) = total_size l1 + total_size l2.
Proof.
  induction l1 as [|n l1 IH]; simpl; [reflexivity | rewrite IH; lia].
Qed.

Lemma total_size_perm l1 l2 :
  Permutation l1 l2 -> total_size l1 = total_size l2.
Proof.
  induction 1; simpl; lia.
Qed.

Lemma total_size_filter (f : Node -> bool) l :
  total_size (List.filter f l) <= total_size l.
Proof.
  induction l as [|n l IH]; simpl; [lia |].
  destruct (f n); simpl; lia.
Qed.

Lemma total_size_dedup l :
  total_size (dedup l) <= total_size l.
Proof.
  induction l as [|n l IH]; simpl; [lia |].
  destruct (mem_oid n l); simpl; lia.
Qed.

Lemma size_children n :
  S (total_size (children n)) = size n.
Proof.
  destruct n as [i cs sc | i cs sc | i cs sc ws | i sc]; simpl; try reflexivity;
    f_equal; induction cs as [|c cs IH]; simpl; auto.
Qed.

Lemma total_size_step (so : set_order) (node : Node) (nodes : list Node) :
  total_size (nodes ++ so (set_difference (children node) nodes))
  < total_size (node :: nodes).
Proof.
  rewrite total_size_app, (total_size_perm _ _ (enumerate_perm so _)).
  unfold set_difference.
  pose proof (total_size_filter (fun c => negb (mem_oid c nodes)) (dedup (children node))).
  pose proof (total_size_dedup (children node)).
  pose proof (size_children node).
  simpl. lia.
Qed.

(** The three counters [(n_sumnodes, n_productnodes, n_leaves)]. *)
Definition counts : Type := nat * nat * nat.

(** The [while nodes:] loop of [_get_node_counts] on the contents of the
    list object [nodes]: it returns the contents the object is left with,
    and the counters or the exception. *)
Equations count_loop (so : set_order) (nodes : list Node) (c : counts) :
  list Node * result counts by wf (total_size nodes) lt :=
  count_loop so [] c := ([], Ok c);
  count_loop so (node :: nodes) (n_sumnodes, n_productnodes, n_leaves)
    with type_of node => {
    | CSumNode :=
        count_loop so (nodes ++ so (set_difference (children node) nodes))
                   (S n_sumnodes, n_productnodes, n_leaves);
    | CProductNode :=
        count_loop so (nodes ++ so (set_difference (children node) nodes))
                   (n_sumnodes, S n_productnodes, n_leaves);
    | CLeafNode :=
        count_loop so (nodes ++ so (set_difference (children node) nodes))
                   (n_sumnodes, n_productnodes, S n_leaves);
    | CNode := (nodes, Raise ValueError) }.
Next Obligation. apply total_size_step. Qed.
Next Obligation. apply total_size_step. Qed.
Next Obligation. apply total_size_step. Qed.

(** The loop of [_print_node_graph]: the contents the local list is left
    with and the nodes printed, in order. *)
Equations print_loop (so : set_order) (nodes : list Node) (out : list Node) :
  list Node * list Node by wf (total_size nodes) lt :=
  print_loop so [] out := ([], out);
  print_loop so (node :: nodes) out :=
    print_loop so (nodes ++ so (set_difference (children node) nodes))
               (out ++ [node]).
Next Obligation. apply total_size_step. Qed.

(** List objects by address. *)
Abbreviation heap := (gmap nat (list Node)).

(** [_get_node_counts(root_nodes: List[Node])]: [nodes = root_nodes] binds a
    second name to the argument's list object, so the loop works at the
    address [root_nodes]. *)
Definition _get_node_counts (so : set_order) (root_nodes : nat) (h : heap) :
  heap * result counts :=
  let nodes := root_nodes in
  let '(left_over, r) := count_loop so (default [] (h !! nodes)) (0, 0, 0)%nat in
  (<[nodes := left_over]> h, r).

(** [_print_node_graph(root_nodes: List[Node])]: [nodes = list(root_nodes)]
    allocates a new list object, and the loop works there. *)
Definition _print_node_graph (so : set_order) (root_nodes : nat) (h : heap) :
  heap * list Node :=
  let nodes := fresh (dom h) in
  let h1 := <[nodes := default [] (h !! root_nodes)]> h in
  let '(left_over, out) := print_loop so (default [] (h1 !! nodes)) [] in
  (<[nodes := left_over]> h1, out).

(** *** Properties of [equals] *)

Lemma list_Z_eqb_refl (l : list Z) : list_Z_eqb l l = true.
Proof.
  induction l as [|x l IH]; simpl; [reflexivity |].
  rewrite Z.eqb_refl, IH. reflexivity.
Qed.

(** A float is close to itself unless it is NaN. *)
Lemma isclose_self (r : Q) (x : pyfloat) : isclose r x x = negb (is_nan x).
Proof.
  destruct x as [q | sgn |].
  - change (Qle_bool (Qabs (q - q)) (Qmax (r * Qmax (Qabs q) (Qabs q)) 0) = true).
    apply Qle_bool_iff.
    assert (H : (q - q == 0)%Q) by ring.
    rewrite H. apply Q.le_max_r.
  - destruct sgn; reflexivity.
  - reflexivity.
Qed.

Lemma all_map2_isclose_self (ws : list pyfloat) :
  all_map2 (isclose rel_tol_equals) ws ws = forallb (fun w => negb (is_nan w)) ws.
Proof.
  induction ws as [|w ws IH]; simpl; [reflexivity |].
  rewrite isclose_self, IH. reflexivity.
Qed.

Lemma cls_is_refl (c : cls) : cls_is c c = true.
Proof. destruct c; reflexivity. Qed.

(** Induction on a node with the property at hand for all its children. *)
Fixpoint Node_children_ind (P : Node -> Prop)
    (HB : forall i cs sc, Forall P cs -> P (BaseNode i cs sc))
    (HP : forall i cs sc, Forall P cs -> P (ProductNode i cs sc))
    (HS : forall i cs sc ws, Forall P cs -> P (SumNode i cs sc ws))
    (HL : forall i sc, P (LeafNode i sc))
    (n : Node) {struct n} : P n.
Proof.
  assert (Hcs : forall cs : list Node,
             (fix sub (l : list Node) : Prop :=
                match l with [] => True | c :: l' => P c /\ sub l' end) cs ->
             Forall P cs).
  { induction cs as [|c cs IH]; intros H; constructor; destruct H; auto. }
  destruct n as [i cs sc | i cs sc | i cs sc ws | i sc].
  - apply HB, Hcs. clear - Node_children_ind HB HP HS HL.
    induction cs as [|c cs IH]; [exact I | split; [| exact IH]].
    apply (Node_children_ind P HB HP HS HL c).
  - apply HP, Hcs. clear - Node_children_ind HB HP HS HL.
    induction cs as [|c cs IH]; [exact I | split; [| exact IH]].
    apply (Node_children_ind P HB HP HS HL c).
  - apply HS, Hcs. clear - Node_children_ind HB HP HS HL.
    induction cs as [|c cs IH]; [exact I | split; [| exact IH]].
    apply (Node_children_ind P HB HP HS HL c).
  - apply HL.
Qed.

(** The comparison of the children stops with the shorter list: what
    follows the children of the first node on the other side is not
    looked at. *)
Lemma all_children_surplus (cs extra : list Node) :
  (fix all_children (xs ys : list Node) {struct xs} : bool :=
     match xs, ys with
     | x :: xs', y :: ys' => equals x y && all_children xs' ys'
     | _, _ => true
     end) cs (cs ++ extra)
  = forallb (fun c => equals c c) cs.
Proof.
  induction cs as [|c cs IH]; simpl; [reflexivity |].
  rewrite IH. reflexivity.
Qed.

Lemma all_free_forallb (cs : list Node) :
  (fix all_free (l : list Node) : bool :=
     match l with
     | [] => true
     | c :: l' => nan_free c && all_free l'
     end) cs
  = forallb nan_free cs.
Proof.
  induction cs as [|c cs IH]; simpl; [reflexivity | rewrite IH; reflexivity].
Qed.

Lemma forallb_ext_Forall {A : Type} (f g : A -> bool) (l : list A) :
  Forall (fun x => f x = g x) l -> forallb f l = forallb g l.
Proof.
  induction 1 as [|x l Hx _ IH]; simpl; [reflexivity |].
  rewrite Hx, IH. reflexivity.
Qed.

(** A node is accepted against itself exactly when it holds no NaN
    weight. *)
Lemma equals_self (n : Node) : equals n n = nan_free n.
Proof.
  induction n as [i cs sc IH | i cs sc IH | i cs sc ws IH | i sc]
    using Node_children_ind; simpl.
  - rewrite list_Z_eqb_refl. simpl.
    rewrite <- (app_nil_r cs) at 2.
    rewrite all_children_surplus, all_free_forallb.
    apply forallb_ext_Forall, IH.
  - rewrite list_Z_eqb_refl. simpl.
    rewrite <- (app_nil_r cs) at 2.
    rewrite all_children_surplus, all_free_forallb.
    apply forallb_ext_Forall, IH.
  - rewrite list_Z_eqb_refl, all_map2_isclose_self, Nat.eqb_refl. simpl.
    rewrite andb_true_r.
    rewrite <- (app_nil_r cs) at 2.
    rewrite all_children_surplus, all_free_forallb.
    rewrite (forallb_ext_Forall _ _ _ IH). apply andb_comm.
  - rewrite list_Z_eqb_refl. reflexivity.
Qed.

(** Against a node of the same class, scope and weights whose children
    start with those of [n], [equals] answers as against [n] itself. *)
Lemma equals_surplus (n m : Node) (extra : list Node) :
  type_of m = type_of n -> scope m = scope n ->
  children m = children n ++ extra ->
  match n, m with
  | SumNode _ _ _ ws, SumNode _ _ _ ws' => ws' = ws
  | _, _ => True
  end ->
  equals n m = equals n n.
Proof.
  destruct n as [i cs sc | i cs sc | i cs sc ws | i sc]; intros Ht Hs Hc Hw;
    simpl in Ht, Hs, Hc.
  - simpl. rewrite Ht, Hs, Hc. simpl. f_equal.
    rewrite <- (app_nil_r cs) at 4.
    rewrite !all_children_surplus. reflexivity.
  - simpl. rewrite Ht, Hs, Hc. simpl. f_equal.
    rewrite <- (app_nil_r cs) at 4.
    rewrite !all_children_surplus. reflexivity.
  - destruct m as [j cs' sc' | j cs' sc' | j cs' sc' ws' | j sc']; try discriminate.
    simpl in Hs, Hc. subst ws' sc' cs'. simpl. f_equal. f_equal. f_equal.
    rewrite <- (app_nil_r cs) at 4.
    rewrite !all_children_surplus. reflexivity.
  - simpl. rewrite Ht, Hs. reflexivity.
Qed.

(** C7 (code defect).  [equals] does not compare the number of children:
    a product node with one child equals a product node that has the same
    first child and one more, although the two nodes differ in the number
    of their children.  The weights of sum nodes, by contrast, are compared
    in number. *)
Theorem equals_ignores_surplus_children :
  let leaf0 := LeafNode 1 [0%Z] in
  let leaf1 := LeafNode 2 [1%Z] in
  let a := ProductNode 3 [leaf0] [0%Z; 1%Z] in
  let b := ProductNode 4 [leaf0; leaf1] [0%Z; 1%Z] in
  equals a b = true
  /\ length (children a) <> length (children b)
  /\ equals (SumNode 5 [leaf0] [0%Z] [Fin 1])
            (SumNode 6 [leaf0] [0%Z] [Fin 1; Fin 0]) = false.
Proof.
  repeat split; simpl; discriminate.
Qed.

(** *** The traversals and the caller's list *)

Lemma known_children (n : Node) :
  known n = true -> Forall (fun c => known c = true) (children n).
Proof.
  destruct n as [i cs sc | i cs sc | i cs sc ws | i sc]; simpl; intros H;
    try discriminate; try constructor;
    induction cs as [|c cs IH]; try constructor;
    apply andb_true_iff in H; destruct H; auto.
Qed.

Lemma incl_dedup (l : list Node) : incl (dedup l) l.
Proof.
  induction l as [|n l IH]; simpl; [apply incl_refl |].
  destruct (mem_oid n l).
  - apply incl_tl, IH.
  - apply incl_cons; [left; reflexivity | apply incl_tl, IH].
Qed.

Lemma known_queue (so : set_order) (node : Node) (nodes : list Node) :
  Forall (fun n => known n = true) (node :: nodes) ->
  Forall (fun n => known n = true)
         (nodes ++ so (set_difference (children node) nodes)).
Proof.
  intros H. inversion H as [|? ? Hn Hq]; subst.
  apply Forall_app; split; [exact Hq |].
  apply (Permutation_Forall (Permutation_sym (enumerate_perm so _))).
  unfold set_difference.
  eapply incl_Forall; [apply incl_filter |].
  eapply incl_Forall; [apply incl_dedup |].
  apply known_children, Hn.
Qed.

(** Whenever the counting loop ends without an exception, it has emptied
    the list it worked on. *)
Lemma count_loop_consumes (so : set_order) (nodes : list Node) (c : counts) :
  forall c', snd (count_loop so nodes c) = Ok c' ->
             fst (count_loop so nodes c) = [].
Proof.
  funelim (count_loop so nodes c); simp count_loop; try rewrite Heq; simpl;
    auto; discriminate.
Qed.

(** On graphs of sum, product and leaf nodes the counting loop ends
    without an exception. *)
Lemma count_loop_returns (so : set_order) (nodes : list Node) (c : counts) :
  Forall (fun n => known n = true) nodes ->
  exists c', snd (count_loop so nodes c) = Ok c'.
Proof.
  funelim (count_loop so nodes c); simp count_loop; try rewrite Heq; simpl;
    intros Hk.
  - eexists; reflexivity.
  - inversion Hk as [|? ? Hn Hq]; subst. destruct node; discriminate.
  - apply H, known_queue, Hk.
  - apply H, known_queue, Hk.
  - apply H, known_queue, Hk.
Qed.

(** C9.  [_get_node_counts] works on the caller's list object: when the
    roots are sum, product and leaf nodes the call returns, the list at the
    caller's address is empty afterwards, no list object is allocated and
    no other list object is touched; [_print_node_graph] works on a copy at
    a new address and leaves every list object of the caller, the argument
    included, as it was. *)
Theorem get_node_counts_consumes_argument
  (so : set_order) (h : heap) (root_nodes : nat) (l : list Node) :
  h !! root_nodes = Some l ->
  l <> [] ->
  Forall (fun n => known n = true) l ->
  (exists c, snd (_get_node_counts so root_nodes h) = Ok c)
  /\ fst (_get_node_counts so root_nodes h) !! root_nodes = Some []
  /\ fst (_get_node_counts so root_nodes h) !! root_nodes <> h !! root_nodes
  /\ dom (fst (_get_node_counts so root_nodes h)) = dom h
  /\ (forall a, a <> root_nodes ->
        fst (_get_node_counts so root_nodes h) !! a = h !! a)
  /\ fst (_print_node_graph so root_nodes h) !! root_nodes = Some l
  /\ (forall a, a ∈ dom h ->
        fst (_print_node_graph so root_nodes h) !! a = h !! a).
Proof.
  intros Hl Hne Hk.
  unfold _get_node_counts, _print_node_graph. rewrite Hl. simpl.
  destruct (count_loop_returns so l (0, 0, 0)%nat Hk) as [c Hc].
  pose proof (count_loop_consumes so l (0, 0, 0)%nat c Hc) as He.
  destruct (count_loop so l (0, 0, 0)%nat) as [left_over r]. simpl in *. subst.
  assert (Hfresh : fresh (dom h) ∉ dom h) by apply is_fresh.
  destruct (print_loop so _ []) as [left_over out]. simpl.
  repeat split.
  - exists c. reflexivity.
  - apply lookup_insert_eq.
  - rewrite lookup_insert_eq. intros E. apply Hne. congruence.
  - apply dom_insert_lookup_L. eauto.
  - intros a Ha. apply lookup_insert_ne. congruence.
  - rewrite !lookup_insert_ne; [exact Hl | |];
      intros E; apply Hfresh; rewrite E; apply elem_of_dom; eauto.
  - intros a Ha. rewrite !lookup_insert_ne; [reflexivity | |];
      intros E; apply Hfresh; rewrite E; exact Ha.
Qed.

Definition listed_order : set_order :=
  {| enumerate := fun l => l; enumerate_perm := fun l => Permutation_refl l |}.

Lemma get_node_counts_consumes_argument_witness :
  let leaf := LeafNode 1 [0%Z] in
  let root := SumNode 3 [ProductNode 2 [leaf; leaf] [0%Z]; leaf] [0%Z] [Fin (1 # 2); Fin (1 # 2)] in
  let h : heap := {[ 7%nat := [root] ]} in
  h !! 7%nat = Some [root]
  /\ snd (_get_node_counts listed_order 7 h) = Ok (1, 1, 1)%nat
  /\ fst (_get_node_counts listed_order 7 h) !! 7%nat = Some []
  /\ fst (_print_node_graph listed_order 7 h) !! 7%nat = Some [root].
Proof.
  intros leaf root h.
  assert (Hl : h !! 7%nat = Some [root]) by reflexivity.
  assert (Hne : [root] <> []) by discriminate.
  assert (Hk : Forall (fun n => known n = true) [root])
    by (repeat constructor).
  destruct (get_node_counts_consumes_argument listed_order h 7 [root] Hl Hne Hk)
    as (_ & Hempty & _ & _ & _ & Hprint & _).
  split; [exact Hl |]. split; [reflexivity |].
  split; [exact Hempty | exact Hprint].
Defined.

(** *** Further properties of the legacy graph *)

Lemma list_Z_eqb_eq (xs ys : list Z) : list_Z_eqb xs ys = true -> xs = ys.
Proof.
  revert ys. induction xs as [|x xs IH]; intros [|y ys]; simpl; try discriminate;
    [reflexivity |].
  intros H. apply andb_true_iff in H. destruct H as [Hx Hxs].
  apply Z.eqb_eq in Hx. subst. f_equal. apply IH, Hxs.
Qed.

Lemma cls_is_eq (a b : cls) : cls_is a b = true -> a = b.
Proof. destruct a, b; simpl; intros H; try discriminate; reflexivity. Qed.

Lemma all_children_lookup (cs : list Node) :
  forall (ds : list Node),
    (fix all_children (xs ys : list Node) {struct xs} : bool :=
       match xs, ys with
       | x :: xs', y :: ys' => equals x y && all_children xs' ys'
       | _, _ => true
       end) cs ds = true ->
    forall (i : nat) (c d : Node),
      cs !! i = Some c -> ds !! i = Some d -> equals c d = true.
Proof.
  induction cs as [|x cs IH]; intros [|y ds] H i c d Hc Hd;
    try (destruct i; discriminate).
  apply andb_true_iff in H. destruct H as [Hxy Hrest].
  destruct i as [|i]; simpl in Hc, Hd.
  - injection Hc as <-. injection Hd as <-. exact Hxy.
  - apply (IH ds Hrest i); assumption.
Qed.

(** X1.  A node equals itself exactly when neither it nor a node below it
    holds a NaN weight: [math.isclose] finds every other float close to
    itself, and NaN close to nothing. *)
Theorem node_equals_itself (n : Node) :
  (nan_free n = true -> equals n n = true)
  /\ (nan_free n = false -> equals n n = false).
Proof.
  rewrite equals_self. split; intros H; exact H.
Qed.

Lemma node_equals_itself_witness :
  equals (SumNode 3 [LeafNode 1 [0%Z]] [0%Z] [Fin 1; Inf false]) 
         (SumNode 3 [LeafNode 1 [0%Z]] [0%Z] [Fin 1; Inf false]) = true
  /\ equals (SumNode 4 [] [0%Z] [NaN]) (SumNode 4 [] [0%Z] [NaN]) = false.
Proof.
  split.
  - apply (proj1 (node_equals_itself
                    (SumNode 3 [LeafNode 1 [0%Z]] [0%Z] [Fin 1; Inf false]))).
    reflexivity.
  - apply (proj2 (node_equals_itself (SumNode 4 [] [0%Z] [NaN]))).
    reflexivity.
Defined.

(** X2.  Two nodes that [equals] accepts have the same class and the same
    scope, their children at the same position are accepted by [equals] in
    turn, and two sum nodes have as many weights as each other. *)
Theorem equals_compares_class_scope_children (a b : Node) :
  equals a b = true ->
  type_of a = type_of b
  /\ scope a = scope b
  /\ (forall i c d, children a !! i = Some c -> children b !! i = Some d ->
                    equals c d = true)
  /\ match a, b with
     | SumNode _ _ _ ws, SumNode _ _ _ ws' => length ws = length ws'
     | _, _ => True
     end.
Proof.
  assert (Hnode : forall cs sc,
             cls_is (type_of a) (type_of b)
             && list_Z_eqb sc (scope b)
             && (fix all_children (xs ys : list Node) {struct xs} : bool :=
                   match xs, ys with
                   | x :: xs', y :: ys' => equals x y && all_children xs' ys'
                   | _, _ => true
                   end) cs (children b) = true ->
             type_of a = type_of b /\ sc = scope b
             /\ forall i c d, cs !! i = Some c -> children b !! i = Some d ->
                              equals c d = true).
  { intros cs sc H. apply andb_true_iff in H. destruct H as [H Hcs].
    apply andb_true_iff in H. destruct H as [Ht Hs].
    split; [apply cls_is_eq, Ht |]. split; [apply list_Z_eqb_eq, Hs |].
    apply all_children_lookup, Hcs. }
  destruct a as [i cs sc | i cs sc | i cs sc ws | i sc]; simpl; intros H.
  - destruct (Hnode cs sc H) as (Ht & Hs & Hc). auto.
  - destruct (Hnode cs sc H) as (Ht & Hs & Hc). auto.
  - destruct b as [j cs' sc' | j cs' sc' | j cs' sc' ws' | j sc']; try discriminate.
    apply andb_true_iff in H. destruct H as [H Hlen].
    apply andb_true_iff in H. destruct H as [H _].
    destruct (Hnode cs sc H) as (Ht & Hs & Hc).
    apply Nat.eqb_eq in Hlen. auto.
  - destruct (Hnode [] sc H) as (Ht & Hs & _).
    repeat split; auto. intros k c d Hk. destruct k; discriminate.
Qed.

(** X3.  [equals] does not look at the children the other node has beyond
    those of the first: a node without a NaN weight in it is accepted
    against any node of its class, scope and weights whose children start
    with its own. *)
Theorem equals_stops_at_own_children (n m : Node) (extra : list Node) :
  nan_free n = true ->
  type_of m = type_of n ->
  scope m = scope n ->
  children m = children n ++ extra ->
  match n, m with
  | SumNode _ _ _ ws, SumNode _ _ _ ws' => ws' = ws
  | _, _ => True
  end ->
  equals n m = true.
Proof.
  intros Hfree Ht Hs Hc Hw.
  rewrite (equals_surplus n m extra Ht Hs Hc Hw), equals_self. exact Hfree.
Qed.

Lemma equals_stops_at_own_children_witness :
  equals (SumNode 3 [LeafNode 1 [0%Z]] [0%Z] [Fin 1])
         (SumNode 4 [LeafNode 1 [0%Z]; LeafNode 2 [0%Z]] [0%Z] [Fin 1]) = true.
Proof.
  apply (equals_stops_at_own_children _ _ [LeafNode 2 [0%Z]]);
    [reflexivity | reflexivity | reflexivity | reflexivity | reflexivity].
Defined.

Definition add_counts (a b : counts) : counts :=
  let '(s, p, lv) := a in
  let '(s', p', lv') := b in
  (s + s', p + p', lv + lv')%nat.

(** What one node adds to the three counters. *)
Definition counted (nd : Node) : counts :=
  match type_of nd with
  | CSumNode => (1, 0, 0)
  | CProductNode => (0, 1, 0)
  | CLeafNode => (0, 0, 1)
  | CNode => (0, 0, 0)
  end%nat.

(** The numbers of sum, product and leaf nodes in a list. *)
Fixpoint tally (l : list Node) : counts :=
  match l with
  | [] => (0, 0, 0)%nat
  | nd :: l' => add_counts (counted nd) (tally l')
  end.

Local Ltac counters :=
  apply (f_equal2 pair); [apply (f_equal2 pair) |]; lia.

Lemma add_counts_assoc (a b c : counts) :
  add_counts a (add_counts b c) = add_counts (add_counts a b) c.
Proof.
  destruct a as [[a1 a2] a3], b as [[b1 b2] b3], c as [[c1 c2] c3]. simpl.
  counters.
Qed.

Lemma add_counts_zero (c : counts) : add_counts c (0, 0, 0)%nat = c.
Proof. destruct c as [[s q] lv]. simpl. counters. Qed.

Lemma print_loop_prefix (so : set_order) (nodes : list Node) (out : list Node) :
  forall out' : list Node,
    print_loop so nodes (out' ++ out)
    = (fst (print_loop so nodes out), out' ++ snd (print_loop so nodes out)).
Proof.
  funelim (print_loop so nodes out); intros out'; simp print_loop.
  - reflexivity.
  - rewrite <- app_assoc. apply H.
Qed.

Lemma print_loop_head (so : set_order) (node : Node) (nodes : list Node) :
  snd (print_loop so (node :: nodes) [])
  = node :: snd (print_loop so (nodes ++ so (set_difference (children node) nodes)) []).
Proof.
  simp print_loop.
  rewrite (print_loop_prefix so _ [] [node]). reflexivity.
Qed.

Lemma count_loop_tallies_printed (so : set_order) (nodes : list Node) (c : counts) :
  forall c', snd (count_loop so nodes c) = Ok c' ->
             c' = add_counts c (tally (snd (print_loop so nodes []))).
Proof.
  funelim (count_loop so nodes c); intros c'; simp count_loop;
    try rewrite Heq; simpl; intros Hc.
  - injection Hc as <-. simp print_loop. simpl. symmetry. apply add_counts_zero.
  - discriminate.
  - rewrite print_loop_head. simpl. unfold counted. rewrite Heq.
    rewrite (H c' Hc).
    match goal with |- context [tally ?x] => destruct (tally x) as [[s' q'] lv'] end.
    simpl. counters.
  - rewrite print_loop_head. simpl. unfold counted. rewrite Heq.
    rewrite (H c' Hc).
    match goal with |- context [tally ?x] => destruct (tally x) as [[s' q'] lv'] end.
    simpl. counters.
  - rewrite print_loop_head. simpl. unfold counted. rewrite Heq.
    rewrite (H c' Hc).
    match goal with |- context [tally ?x] => destruct (tally x) as [[s' q'] lv'] end.
    simpl. counters.
Qed.

(** X4.  When [_get_node_counts] returns, its three counters are the
    numbers of sum, product and leaf nodes among the nodes that
    [_print_node_graph] prints for the same roots: the two traversals visit
    the same nodes. *)
Theorem counts_are_those_of_printed_nodes
    (so : set_order) (h : heap) (root_nodes : nat) (c : counts) :
  snd (_get_node_counts so root_nodes h) = Ok c ->
  c = tally (snd (_print_node_graph so root_nodes h)).
Proof.
  unfold _get_node_counts, _print_node_graph. intros H.
  rewrite lookup_insert_eq. simpl default.
  destruct (count_loop so (default [] (h !! root_nodes)) (0, 0, 0)%nat)
    as [left_over r] eqn:Hcount.
  simpl in H. subst r.
  pose proof (count_loop_tallies_printed so (default [] (h !! root_nodes))
                (0, 0, 0)%nat c) as Ht.
  rewrite Hcount in Ht. specialize (Ht eq_refl).
  destruct (print_loop so (default [] (h !! root_nodes)) []) as [left_over' out].
  simpl in *. rewrite Ht. destruct (tally out) as [[s q] lv]. reflexivity.
Qed.

Lemma counts_are_those_of_printed_nodes_witness :
  let leaf := LeafNode 1 [0%Z] in
  let root := SumNode 3 [ProductNode 2 [leaf; leaf] [0%Z]; leaf] [0%Z] [Fin (1 # 2); Fin (1 # 2)] in
  let h : heap := {[ 7%nat := [root] ]} in
  (1, 1, 1)%nat = tally (snd (_print_node_graph listed_order 7 h)).
Proof.
  intros leaf root h.
  apply (counts_are_those_of_printed_nodes listed_order h 7 (1, 1, 1)%nat).
  reflexivity.
Defined.

(** A base [Node] among the nodes still to visit ends the counting loop in
    the [ValueError]. *)
Lemma count_loop_unknown_class (so : set_order) (nodes : list Node) (c : counts) :
  Exists (fun nd => type_of nd = CNode) nodes ->
  snd (count_loop so nodes c) = Raise ValueError.
Proof.
  funelim (count_loop so nodes c); simp count_loop; try rewrite Heq; simpl;
    intros Hex.
  - inversion Hex.
  - reflexivity.
  - apply H. inversion Hex as [? ? Hn | ? ? Ht]; subst; [congruence |].
    apply Exists_app. left. exact Ht.
  - apply H. inversion Hex as [? ? Hn | ? ? Ht]; subst; [congruence |].
    apply Exists_app. left. exact Ht.
  - apply H. inversion Hex as [? ? Hn | ? ? Ht]; subst; [congruence |].
    apply Exists_app. left. exact Ht.
Qed.

(** X5.  If one of the roots passed to [_get_node_counts] is an instance
    of the base class [Node], the call raises [ValueError], whatever the
    other roots are. *)
Theorem base_node_root_raises
    (so : set_order) (h : heap) (root_nodes : nat) (l : list Node) :
  h !! root_nodes = Some l ->
  Exists (fun nd => type_of nd = CNode) l ->
  snd (_get_node_counts so root_nodes h) = Raise ValueError.
Proof.
  intros Hl Hex. unfold _get_node_counts. rewrite Hl. simpl default.
  pose proof (count_loop_unknown_class so l (0, 0, 0)%nat Hex) as H.
  destruct (count_loop so l (0, 0, 0)%nat) as [left_over r]. exact H.
Qed.

Lemma base_node_root_raises_witness :
  snd (_get_node_counts listed_order 7
         {[ 7%nat := [LeafNode 1 [0%Z]; BaseNode 2 [] [0%Z]] ]})
  = Raise ValueError.
Proof.
  apply (base_node_root_raises listed_order _ 7 [LeafNode 1 [0%Z]; BaseNode 2 [] [0%Z]]).
  - reflexivity.
  - apply Exists_cons_tl, Exists_cons_hd. reflexivity.
Defined.

Lemma equals_compares_class_scope_children_witness :
  let leaf := LeafNode 1 [0%Z] in
  let a := SumNode 3 [leaf; leaf] [0%Z] [Fin (1 # 2); Fin (1 # 2)] in
  let b := SumNode 4 [leaf; leaf] [0%Z] [Fin (1 # 2); Fin (500001 # 1000000)] in
  equals a b = true /\ type_of a = type_of b /\ scope a = scope b.
Proof.
  intros leaf a b.
  assert (H : equals a b = true) by reflexivity.
  destruct (equals_compares_class_scope_children a b H) as (Ht & Hs & _).
  split; [exact H |]. split; [exact Ht | exact Hs].
Defined.

End Graph.

(** ** spn/leaves/Histograms.py *)

Module Histograms.

(** [x < y] on floats. *)
Definition Qlt_b (x y : Q) : bool := negb (Qle_bool y x).

(** Python's [l[i]] for an integer [i]: a negative index counts from the
    end, and an index outside [-len(l) .. len(l)-1] raises [IndexError]. *)
Definition getitem {A : Type} (l : list A) (i : Z) : result A :=
  let n := Z.of_nat (length l) in
  let k := if (i <? 0)%Z then (n + i)%Z else i in
  if ((0 <=? k) && (k <? n))%Z
  then match l !! Z.to_nat k with
       | Some a => Ok a
       | None => Raise IndexError
       end
  else Raise IndexError.

Fixpoint mapM {A B : Type} (f : A -> result B) (l : list A) : result (list B) :=
  match l with
  | [] => Ok []
  | a :: l' => do b <- f a; do bs <- mapM f l'; Ok (b :: bs)
  end.

(** [class Histogram(Leaf)]. *)
Record Histogram : Type := {
  breaks : list Q;
  densities : list Q
}.

(** The inner loop [for b in node.breaks: if b > x: break; j += 1]. *)
Fixpoint scan (bs : list Q) (x : Q) (j : Z) : Z :=
  match bs with
  | [] => j
  | b :: bs' => if Qlt_b x b then j else scan bs' x (j + 1)%Z
  end.

(** One turn of the loop over [data]: the value [probs[i]] is left with,
    starting from the zero of [np.zeros]. *)
Definition prob_of (node : Histogram) (x : Q) : result Q :=
  do first <- getitem (breaks node) 0%Z;
  do last <- getitem (breaks node) (-1)%Z;
  if Qlt_b x first || Qlt_b last x then Ok 0%Q
  else getitem (densities node) (scan (breaks node) x 0%Z - 1)%Z.

Section Likelihood.

(** [spn.algorithms.Inference.EPSILON], defined outside these sources. *)
Variable EPSILON : Q.

(** [np.log] on one float. *)
Variable F : Type.
Variable log : Q -> F.

(** [probs[probs < Inference.EPSILON] = Inference.EPSILON]. *)
Definition floor_probs (probs : list Q) : list Q :=
  map (fun p => if Qlt_b p EPSILON then EPSILON else p) probs.

(** The array [probs] as [np.log] receives it. *)
Definition histogram_probs (node : Histogram) (data : list Q) : result (list Q) :=
  do probs <- mapM (prob_of node) data;
  Ok (floor_probs probs).

Definition histogram_likelihood (node : Histogram) (data : list Q) : result (list F) :=
  do probs <- histogram_probs node data;
  Ok (map log probs).

End Likelihood.

Arguments histogram_likelihood EPSILON {F} log node data.

(** *** What [histogram_likelihood] computes *)


Lemma Qlt_b_false (x y : Q) : Qlt_b x y = false <-> (y <= x)%Q.
Proof.
  unfold Qlt_b. rewrite negb_false_iff. apply Qle_bool_iff.
Qed.

Lemma getitem_nat {A : Type} (l : list A) (j : nat) (a : A) :
  l !! j = Some a -> getitem l (Z.of_nat j) = Ok a.
Proof.
  intros H. unfold getitem.
  pose proof (lookup_lt_Some _ _ _ H) as Hlt.
  replace (Z.of_nat j <? 0)%Z with false by (symmetry; apply Z.ltb_ge; lia).
  replace (0 <=? Z.of_nat j)%Z with true by (symmetry; apply Z.leb_le; lia).
  replace (Z.of_nat j <? Z.of_nat (length l))%Z with true
    by (symmetry; apply Z.ltb_lt; lia).
  simpl. rewrite Nat2Z.id, H. reflexivity.
Qed.

Lemma getitem_head {A : Type} (l : list A) (a : A) :
  head l = Some a -> getitem l 0%Z = Ok a.
Proof.
  intros H. rewrite head_lookup in H. exact (getitem_nat l 0 a H).
Qed.

Lemma getitem_last {A : Type} (l : list A) (a : A) :
  last l = Some a -> getitem l (-1)%Z = Ok a.
Proof.
  intros H. rewrite last_lookup in H.
  pose proof (lookup_lt_Some _ _ _ H) as Hlt.
  unfold getitem. change (-1 <? 0)%Z with true. cbv iota.
  destruct ((0 <=? Z.of_nat (length l) + -1) && (Z.of_nat (length l) + -1 <? Z.of_nat (length l)))%Z eqn:E.
  - replace (Z.to_nat (Z.of_nat (length l) + -1)) with (pred (length l)) by lia.
    rewrite H. reflexivity.
  - exfalso. apply andb_false_iff in E.
    destruct E as [E | E]; [apply Z.leb_gt in E | apply Z.ltb_ge in E]; lia.
Qed.






Section LikelihoodFacts.

Variable EPSILON : Q.
Variable F : Type.
Variable log : Q -> F.



End LikelihoodFacts.

(** A positive value for the floor, [1e-15]; the constant itself is
    defined in the inference engine, outside these sources. *)
Definition EPSILON_legacy : Q := 1 # 1000000000000000.

Definition two_bins : Histogram :=
  {| breaks := [0; 1; 2]%Q; densities := [1 # 4; 3 # 4]%Q |}.



(** A value equal to the last break is in the closed interval, and the
    scan runs past the last density. *)
Example last_break_raises :
  histogram_probs EPSILON_legacy two_bins [2]%Q = Raise IndexError.
Proof. reflexivity. Qed.

(** *** Further properties of the histogram likelihood *)

Lemma getitem_raises_IndexError {A : Type} (l : list A) (i : Z) (e : exn) :
  getitem l i = Raise e -> e = IndexError.
Proof.
  unfold getitem.
  destruct (_ && _)%Z; [destruct (l !! _) |]; intros H; try discriminate;
    injection H as <-; reflexivity.
Qed.

Lemma prob_of_raises_IndexError (node : Histogram) (x : Q) (e : exn) :
  prob_of node x = Raise e -> e = IndexError.
Proof.
  unfold prob_of.
  destruct (getitem (breaks node) 0) as [first|e1] eqn:H1; simpl.
  - destruct (getitem (breaks node) (-1)) as [last_|e2] eqn:H2; simpl.
    + destruct (Qlt_b x first || Qlt_b last_ x); [discriminate |].
      apply getitem_raises_IndexError.
    + intros H. injection H as <-. apply (getitem_raises_IndexError _ _ _ H2).
  - intros H. injection H as <-. apply (getitem_raises_IndexError _ _ _ H1).
Qed.

Lemma mapM_length {A B : Type} (f : A -> result B) (l : list A) :
  forall ys, mapM f l = Ok ys -> length ys = length l.
Proof.
  induction l as [|a l IH]; simpl; intros ys H.
  - injection H as <-. reflexivity.
  - destruct (f a) as [b|e]; [| discriminate]. simpl in H.
    destruct (mapM f l) as [bs|e]; [| discriminate]. simpl in H.
    injection H as <-. simpl. f_equal. apply IH. reflexivity.
Qed.

Lemma mapM_raises {A B : Type} (f : A -> result B) (E : exn) (l : list A) :
  (forall x e, f x = Raise e -> e = E) ->
  Exists (fun x => exists e, f x = Raise e) l ->
  mapM f l = Raise E.
Proof.
  intros Honly. induction 1 as [x l (e & He) | x l _ IH]; simpl.
  - rewrite He. simpl. f_equal. apply (Honly x e He).
  - destruct (f x) as [b|e] eqn:Hx; simpl.
    + rewrite IH. reflexivity.
    + f_equal. apply (Honly x e Hx).
Qed.

Lemma scan_all_below (bs : list Q) (x : Q) :
  forall j : Z,
    Forall (fun b => (b <= x)%Q) bs -> scan bs x j = (j + Z.of_nat (length bs))%Z.
Proof.
  induction bs as [|b bs IH]; intros j Hall; simpl; [lia |].
  inversion Hall as [|? ? Hb Hbs]; subst.
  replace (Qlt_b x b) with false by (symmetry; apply Qlt_b_false, Hb).
  rewrite (IH (j + 1)%Z Hbs). lia.
Qed.

Lemma getitem_past_end {A : Type} (l : list A) :
  getitem l (Z.of_nat (length l)) = Raise IndexError.
Proof.
  unfold getitem.
  replace (Z.of_nat (length l) <? 0)%Z with false by (symmetry; apply Z.ltb_ge; lia).
  replace (Z.of_nat (length l) <? Z.of_nat (length l))%Z with false
    by (symmetry; apply Z.ltb_ge; lia).
  rewrite andb_false_r. reflexivity.
Qed.

Section FloorFacts.

Variable EPSILON : Q.
Variable F : Type.
Variable log : Q -> F.

(** X6.  Whenever [histogram_likelihood] returns, it returns one entry per
    data value, and each entry is the logarithm of a probability that is
    not below [EPSILON]. *)
Theorem histogram_likelihood_never_below_floor
    (node : Histogram) (data : list Q) (lls : list F) :
  histogram_likelihood EPSILON log node data = Ok lls ->
  exists probs : list Q,
    lls = map log probs
    /\ length probs = length data
    /\ Forall (fun p => (EPSILON <= p)%Q) probs.
Proof.
  unfold histogram_likelihood, histogram_probs. intros H.
  destruct (mapM (prob_of node) data) as [ps|e] eqn:Hps; [| discriminate].
  simpl in H. injection H as <-.
  exists (floor_probs EPSILON ps). split; [reflexivity |]. split.
  - unfold floor_probs. rewrite length_map. apply (mapM_length _ _ _ Hps).
  - unfold floor_probs. clear Hps.
    induction ps as [|q ps IH]; simpl; constructor; [| exact IH].
    destruct (Qlt_b q EPSILON) eqn:E; [apply Qle_refl | apply Qlt_b_false, E].
Qed.

(** X7.  On a histogram with one density per bin whose last break is its
    largest, data that holds the last break itself makes
    [histogram_likelihood] raise [IndexError]: the scan runs past every
    break and asks for a density after the last one. *)
Theorem histogram_likelihood_raises_at_last_break
    (node : Histogram) (data : list Q) (last_ x : Q) :
  length (densities node) = pred (length (breaks node)) ->
  last (breaks node) = Some last_ ->
  Forall (fun b => (b <= last_)%Q) (breaks node) ->
  In x data ->
  (x == last_)%Q ->
  histogram_likelihood EPSILON log node data = Raise IndexError.
Proof.
  intros Hlen Hl Hmax Hin Hx.
  unfold histogram_likelihood, histogram_probs.
  rewrite (mapM_raises (prob_of node) IndexError data); [reflexivity | |].
  - intros y e. apply prob_of_raises_IndexError.
  - apply Exists_exists. exists x. split; [apply list_elem_of_In, Hin |].
    exists IndexError. unfold prob_of.
    destruct (breaks node) as [|first bs] eqn:Hb; [discriminate |].
    rewrite <- Hb in *.
    assert (Hf : head (breaks node) = Some first) by (rewrite Hb; reflexivity).
    rewrite (getitem_head _ _ Hf), (getitem_last _ _ Hl). simpl.
    assert (Hfirst : (first <= x)%Q).
    { rewrite Hx. rewrite Forall_forall in Hmax. apply Hmax.
      rewrite Hb. left. }
    replace (Qlt_b x first) with false by (symmetry; apply Qlt_b_false, Hfirst).
    replace (Qlt_b last_ x) with false
      by (symmetry; apply Qlt_b_false; rewrite Hx; apply Qle_refl).
    simpl.
    rewrite scan_all_below
      by (eapply Forall_impl; [exact Hmax | intros b Hb'; simpl; rewrite Hx; exact Hb']).
    replace (0 + Z.of_nat (length (breaks node)) - 1)%Z
      with (Z.of_nat (length (densities node)))
      by (rewrite Hlen, Hb; simpl; lia).
    apply getitem_past_end.
Qed.

End FloorFacts.

Lemma histogram_likelihood_never_below_floor_witness :
  exists probs : list Q,
    [EPSILON_legacy; 1 # 4; EPSILON_legacy] = map (fun p => p) probs
    /\ length probs = 3%nat
    /\ Forall (fun p => (EPSILON_legacy <= p)%Q) probs.
Proof.
  apply (histogram_likelihood_never_below_floor EPSILON_legacy Q (fun p => p)
           two_bins [-1; 1 # 2; 3]%Q).
  reflexivity.
Defined.

Lemma histogram_likelihood_raises_at_last_break_witness :
  histogram_likelihood EPSILON_legacy (fun p => p) two_bins [1 # 2; 2]%Q
  = Raise IndexError.
Proof.
  apply (histogram_likelihood_raises_at_last_break EPSILON_legacy Q (fun p => p)
           two_bins [1 # 2; 2]%Q 2%Q 2%Q).
  - reflexivity.
  - reflexivity.
  - repeat constructor; discriminate.
  - right. left. reflexivity.
  - reflexivity.
Defined.

End Histograms.

(** ** spflow/base/sampling/spn/layers/partition_layer.py *)

Module PartitionSampling.

(** [==] on Python lists of output ids. *)
Fixpoint list_nat_eqb (xs ys : list nat) : bool :=
  match xs, ys with
  | [], [] => true
  | x :: xs', y :: ys' => Nat.eqb x y && list_nat_eqb xs' ys'
  | _, _ => false
  end.

(** [SamplingContext(instance_ids, output_ids)]: the rows of [data] to fill
    and, for each of them, the list of output ids requested. *)
Record SamplingContext : Type := {
  instance_ids : list nat;
  output_ids : list (list nat)
}.

(** The distinct lists of [l], each at its first occurrence. *)
Fixpoint unique_lists (l : list (list nat)) : list (list nat) :=
  match l with
  | [] => []
  | x :: l' => x :: List.filter (fun y => negb (list_nat_eqb y x)) (unique_lists l')
  end.

(** The positions, counted from [i], at which [l] holds the list [k]. *)
Fixpoint positions_from (i : nat) (k : list nat) (l : list (list nat)) : list nat :=
  match l with
  | [] => []
  | x :: l' =>
      if list_nat_eqb x k then i :: positions_from (S i) k l'
      else positions_from (S i) k l'
  end.

(** Modelled from the spec: [SamplingContext.unique_outputs_ids] with
    [return_indices=True], of [spflow/meta/dispatch/sampling_context.py],
    which is not among the sources.  "Group requested instances by their
    unique requested output id": the distinct output-id lists, each paired
    with the positions of the instances that request it (the two
    lists the loop zips). *)
Definition unique_outputs_ids (ctx : SamplingContext) : list (list nat * list nat) :=
  map (fun k => (k, positions_from 0 k (output_ids ctx)))
      (unique_lists (output_ids ctx)).

(** [np.array(instance_ids)[indices]]. *)
Fixpoint take_indices (ids : list nat) (indices : list nat) : result (list nat) :=
  match indices with
  | [] => Ok []
  | i :: rest =>
      match ids !! i with
      | Some a => do r <- take_indices ids rest; Ok (a :: r)
      | None => Raise IndexError
      end
  end.

Section Sample.

(** The data array, the internal nodes of the layer, and [sample]
    dispatched to an internal node, which fills rows of the array. *)
Variable data : Type.
Variable node : Type.
Variable sample_node : node -> data -> SamplingContext -> result data.

Record PartitionLayer : Type := {
  n_out : nat;
  nodes : list node
}.

(** The context of a sub-call:
    [SamplingContext(node_instance_ids, [[] for _ in node_instance_ids])]. *)
Definition sub_context (node_instance_ids : list nat) : SamplingContext :=
  {| instance_ids := node_instance_ids;
     output_ids := map (fun _ => []) node_instance_ids |}.

(** The body of the [for node_ids, indices in zip(...)] loop, over the
    groups still to come. *)
Fixpoint sample_groups (partition_layer : PartitionLayer) (sampling_ctx : SamplingContext)
    (groups : list (list nat * list nat)) (d : data) : result data :=
  match groups with
  | [] => Ok d
  | (node_ids, indices) :: rest =>
      if negb (Nat.eqb (length node_ids) 1)
         || (Nat.eqb (length node_ids) 0 && negb (Nat.eqb (n_out partition_layer) 1))
      then Raise ValueError
      else
        match node_ids !! 0%nat with
        | None => Raise IndexError
        | Some node_id =>
            do node_instance_ids <- take_indices (instance_ids sampling_ctx) indices;
            match nodes partition_layer !! node_id with
            | None => Raise IndexError
            | Some nd =>
                do d' <- sample_node nd d (sub_context node_instance_ids);
                sample_groups partition_layer sampling_ctx rest d'
            end
        end
  end.

(** [sample(partition_layer, data, ..., sampling_ctx)] for a supplied
    sampling context ([init_default_sampling_context] hands a supplied
    context back). *)
Definition sample (partition_layer : PartitionLayer) (d : data)
    (sampling_ctx : SamplingContext) : result data :=
  sample_groups partition_layer sampling_ctx (unique_outputs_ids sampling_ctx) d.

End Sample.

Arguments n_out {node} p.
Arguments nodes {node} p.
Arguments sample {data node} sample_node partition_layer d sampling_ctx.
Arguments sample_groups {data node} sample_node partition_layer sampling_ctx groups d.

(** *** Which requests [sample] refuses and what it dispatches *)

Lemma list_nat_eqb_eq (xs ys : list nat) : list_nat_eqb xs ys = true <-> xs = ys.
Proof.
  revert ys. induction xs as [|x xs IH]; intros [|y ys]; simpl;
    try (split; [discriminate | discriminate]); [split; reflexivity |].
  rewrite andb_true_iff, Nat.eqb_eq, IH.
  split; [intros [-> ->]; reflexivity | intros H; injection H; auto].
Qed.

Lemma In_unique_lists (x : list nat) (l : list (list nat)) :
  In x l -> In x (unique_lists l).
Proof.
  induction l as [|y l IH]; simpl; [tauto |].
  intros [-> | H]; [left; reflexivity |].
  destruct (list_nat_eqb x y) eqn:E.
  - left. symmetry. apply list_nat_eqb_eq, E.
  - right. apply filter_In. split; [apply IH, H | rewrite E; reflexivity].
Qed.

(** The distinct ids of [l], each at its first occurrence. *)
Fixpoint unique_ids (l : list nat) : list nat :=
  match l with
  | [] => []
  | x :: l' => x :: List.filter (fun y => negb (Nat.eqb y x)) (unique_ids l')
  end.

Lemma NoDup_filter_list {A : Type} (f : A -> bool) (l : list A) :
  NoDup l -> NoDup (List.filter f l).
Proof.
  induction 1 as [|x l Hx Hl IH]; simpl; [constructor |].
  destruct (f x); [constructor |]; auto.
  intros Hin. apply Hx. apply list_elem_of_In. apply list_elem_of_In in Hin.
  apply filter_In in Hin. tauto.
Qed.

Lemma NoDup_unique_ids (l : list nat) : NoDup (unique_ids l).
Proof.
  induction l as [|x l IH]; simpl; constructor.
  - intros Hin. apply list_elem_of_In, filter_In in Hin.
    destruct Hin as [_ Hin]. rewrite Nat.eqb_refl in Hin. discriminate.
  - apply NoDup_filter_list, IH.
Qed.

Lemma In_unique_ids (x : nat) (l : list nat) :
  In x l <-> In x (unique_ids l).
Proof.
  induction l as [|y l IH]; simpl; [tauto |].
  rewrite filter_In, <- IH, negb_true_iff, Nat.eqb_neq.
  destruct (Nat.eq_dec y x); [tauto |].
  split; [intros [? | ?]; [contradiction | right; split; auto] | tauto].
Qed.

(** The instances that request exactly the output [id]. *)
Definition requesters (ctx : SamplingContext) (id : nat) : list nat :=
  map fst (List.filter (fun p => list_nat_eqb (snd p) [id])
                       (combine (instance_ids ctx) (output_ids ctx))).

Lemma unique_lists_singletons (outs : list (list nat)) :
  Forall (fun lst => exists id, lst = [id]) outs ->
  unique_lists outs = map (fun id => [id]) (unique_ids (concat outs)).
Proof.
  induction 1 as [|lst outs [id ->] _ IH]; simpl; [reflexivity |].
  f_equal. rewrite IH. clear IH.
  induction (unique_ids (concat outs)) as [|a l IHl]; simpl; [reflexivity |].
  rewrite Nat.eqb_sym, andb_true_r.
  destruct (Nat.eqb id a); simpl; rewrite IHl; reflexivity.
Qed.

Lemma take_indices_positions (k : list nat) (outs : list (list nat)) :
  forall (pre ids : list nat),
    length ids = length outs ->
    take_indices (pre ++ ids) (positions_from (length pre) k outs)
    = Ok (map fst (List.filter (fun p => list_nat_eqb (snd p) k) (combine ids outs))).
Proof.
  induction outs as [|x outs IH]; intros pre [|i ids] Hlen; simpl in *;
    try discriminate; try reflexivity.
  injection Hlen as Hlen.
  specialize (IH (pre ++ [i]) ids Hlen).
  rewrite <- app_assoc, length_app in IH. simpl in IH.
  replace (length pre + 1)%nat with (S (length pre)) in IH by lia.
  destruct (list_nat_eqb x k); simpl.
  - rewrite lookup_app_r by lia. rewrite Nat.sub_diag. simpl.
    rewrite IH. reflexivity.
  - exact IH.
Qed.

Section SampleFacts.

Variable data : Type.
Variable node : Type.
Variable sample_node : node -> data -> SamplingContext -> result data.

(** One sub-call per id of [ids], in order, each to the internal node of
    that id and for the instances that request it. *)
Fixpoint dispatch (partition_layer : PartitionLayer node) (ctx : SamplingContext)
    (ids : list nat) (d : data) : result data :=
  match ids with
  | [] => Ok d
  | id :: rest =>
      match nodes partition_layer !! id with
      | None => Raise IndexError
      | Some nd =>
          do d' <- sample_node nd d (sub_context (requesters ctx id));
          dispatch partition_layer ctx rest d'
      end
  end.

Lemma sample_groups_dispatch (partition_layer : PartitionLayer node)
    (ctx : SamplingContext) :
  length (instance_ids ctx) = length (output_ids ctx) ->
  forall (ids : list nat) (d : data),
    sample_groups sample_node partition_layer ctx
      (map (fun k => (k, positions_from 0 k (output_ids ctx)))
           (map (fun id => [id]) ids)) d
    = dispatch partition_layer ctx ids d.
Proof.
  intros Hlen. induction ids as [|id ids IH]; intros d; simpl; [reflexivity |].
  pose proof (take_indices_positions [id] (output_ids ctx) [] (instance_ids ctx) Hlen)
    as Htake.
  simpl in Htake. rewrite Htake. simpl. fold (requesters ctx id).
  destruct (nodes partition_layer !! id) as [nd|]; [| reflexivity].
  destruct (sample_node nd d (sub_context (requesters ctx id))) as [d'|e];
    simpl; [apply IH | reflexivity].
Qed.

Lemma unique_lists_incl (x : list nat) (l : list (list nat)) :
  In x (unique_lists l) -> In x l.
Proof.
  induction l as [|y l IH]; simpl; [tauto |].
  intros [-> | H]; [left; reflexivity |].
  apply filter_In in H. right. apply IH, H.
Qed.

(** When sub-calls return and the single ids requested are outputs of the
    layer, the loop over groups of requested lists ends in the
    [ValueError] of the guard as soon as one of the lists does not hold
    exactly one id. *)
Lemma sample_groups_refuses (partition_layer : PartitionLayer node)
    (ctx : SamplingContext) :
  length (instance_ids ctx) = length (output_ids ctx) ->
  (forall nd d c, exists d', sample_node nd d c = Ok d') ->
  (forall id, In [id] (output_ids ctx) ->
              (id < length (nodes partition_layer))%nat) ->
  forall ks : list (list nat),
    (forall k, In k ks -> In k (output_ids ctx)) ->
    (exists k, In k ks /\ length k <> 1%nat) ->
    forall d,
      sample_groups sample_node partition_layer ctx
        (map (fun k => (k, positions_from 0 k (output_ids ctx))) ks) d
      = Raise ValueError.
Proof.
  intros Hlen Hsub Hrange.
  induction ks as [|k ks IH]; intros Hin (bad & Hbad & Hb) d; [destruct Hbad |].
  simpl. destruct (Nat.eqb (length k) 1) eqn:E; simpl; [| reflexivity].
  apply Nat.eqb_eq in E.
  destruct k as [|id [|? ?]]; try discriminate. simpl.
  pose proof (take_indices_positions [id] (output_ids ctx) [] (instance_ids ctx) Hlen)
    as Htake.
  simpl in Htake. rewrite Htake. simpl.
  assert (Hid : (id < length (nodes partition_layer))%nat)
    by (apply Hrange, Hin; left; reflexivity).
  destruct (nodes partition_layer !! id) as [nd|] eqn:End;
    [| apply lookup_ge_None in End; lia].
  destruct (Hsub nd d (sub_context
              (map fst (List.filter (fun q => list_nat_eqb (snd q) [id])
                          (combine (instance_ids ctx) (output_ids ctx))))))
    as [d' Hd'].
  rewrite Hd'. simpl. apply IH.
  - intros k' Hk'. apply Hin. right. exact Hk'.
  - exists bad. split; [| exact Hb].
    destruct Hbad as [<- | Hbad]; [contradiction Hb; reflexivity | exact Hbad].
Qed.

(** C5 (amended).  [sample] on a partition layer refuses, with
    [ValueError], a request in which some instance asks for more than one
    output id, or for none while the layer has more than one output
    (sub-calls returning and the single ids requested being outputs of the
    layer, so that no other exception comes first).  Different instances
    may ask for different outputs: when every instance requests exactly
    one output id, [sample] makes one sub-call per distinct requested id,
    to the internal node of that id and for the instances that request
    it. *)
Theorem sample_refuses_unless_one_id_per_instance
    (partition_layer : PartitionLayer node) (d : data) (ctx : SamplingContext) :
  length (instance_ids ctx) = length (output_ids ctx) ->
  ((forall nd d' c, exists d'', sample_node nd d' c = Ok d'') ->
   (forall id, In [id] (output_ids ctx) ->
               (id < length (nodes partition_layer))%nat) ->
   (exists lst, In lst (output_ids ctx)
                /\ ((1 < length lst)%nat
                    \/ (length lst = 0%nat /\ n_out partition_layer <> 1%nat))) ->
   sample sample_node partition_layer d ctx = Raise ValueError)
  /\ (Forall (fun lst => exists id, lst = [id]) (output_ids ctx) ->
      sample sample_node partition_layer d ctx
      = dispatch partition_layer ctx (unique_ids (concat (output_ids ctx))) d
      /\ NoDup (unique_ids (concat (output_ids ctx)))
      /\ forall id, In [id] (output_ids ctx) ->
                    In id (unique_ids (concat (output_ids ctx)))).
Proof.
  intros Hlen. split.
  - intros Hsub Hrange (lst & Hin & Hbad).
    unfold sample, unique_outputs_ids.
    apply (sample_groups_refuses partition_layer ctx Hlen Hsub Hrange).
    + intros k Hk. apply unique_lists_incl, Hk.
    + exists lst. split; [apply In_unique_lists, Hin |].
      destruct Hbad as [H | [H _]]; lia.
  - intros Hone. split; [| split].
    + unfold sample, unique_outputs_ids.
      rewrite (unique_lists_singletons _ Hone).
      apply sample_groups_dispatch, Hlen.
    + apply NoDup_unique_ids.
    + intros id Hin. apply (proj1 (In_unique_ids _ _)).
      apply (proj2 (in_concat _ _)).
      exists [id]. split; [exact Hin | left; reflexivity].
Qed.

End SampleFacts.

Arguments dispatch {data node} sample_node partition_layer ctx ids d.

(** A layer of two outputs whose internal nodes record the sub-calls they
    receive: the node and the instances it is asked to fill. *)
Definition recording_node (nd : nat) (d : list (nat * list nat))
    (c : SamplingContext) : result (list (nat * list nat)) :=
  Ok (d ++ [(nd, instance_ids c)]).

Definition two_outputs : PartitionLayer nat :=
  {| n_out := 2; nodes := [10; 11]%nat |}.

(** The request of the test suite, [SamplingContext([0], [[0, 1]])]. *)
Example sample_two_ids_raises :
  sample recording_node two_outputs []
         {| instance_ids := [0%nat]; output_ids := [[0; 1]%nat] |}
  = Raise ValueError.
Proof. reflexivity. Qed.

(** No id requested raises as well when the layer has a single output:
    the test [len(node_ids) != 1] comes first. *)
Example sample_no_id_single_output_raises :
  sample recording_node {| n_out := 1; nodes := [10%nat] |} []
         {| instance_ids := [0%nat]; output_ids := [[]] |}
  = Raise ValueError.
Proof. reflexivity. Qed.

(** Two instances that ask for two different outputs are both served:
    the request is not refused. *)
Lemma distinct_ids_across_instances_are_served :
  let ctx := {| instance_ids := [0; 1]%nat; output_ids := [[0]; [1]]%nat |} in
  In [0%nat] (output_ids ctx) /\ In [1%nat] (output_ids ctx)
  /\ sample recording_node two_outputs [] ctx = Ok [(10, [0]); (11, [1])]%nat
  /\ ~ raises (sample recording_node two_outputs [] ctx).
Proof.
  split; [left; reflexivity |]. split; [right; left; reflexivity |].
  split; [reflexivity |]. intros [e He]. discriminate He.
Qed.

Lemma sample_refuses_unless_one_id_per_instance_witness :
  sample recording_node two_outputs []
         {| instance_ids := [0%nat]; output_ids := [[0; 1]%nat] |}
  = Raise ValueError
  /\ sample recording_node two_outputs []
            {| instance_ids := [0; 1]%nat; output_ids := [[1%nat]; []] |}
     = Raise ValueError
  /\ sample recording_node two_outputs []
            {| instance_ids := [4; 5; 6]%nat; output_ids := [[1]; [0]; [1]]%nat |}
     = Ok [(11, [4; 6]); (10, [5])]%nat.
Proof.
  assert (Hsub : forall (nd : nat) (d' : list (nat * list nat)) (c : SamplingContext),
             exists d'', recording_node nd d' c = Ok d'')
    by (intros; eexists; reflexivity).
  split; [| split].
  - apply (proj1 (sample_refuses_unless_one_id_per_instance _ _ recording_node
             two_outputs []
             {| instance_ids := [0%nat]; output_ids := [[0; 1]%nat] |} eq_refl)).
    + exact Hsub.
    + intros id [H | []]. discriminate H.
    + exists [0; 1]%nat. split; [left; reflexivity | left; apply Nat.lt_succ_diag_r].
  - apply (proj1 (sample_refuses_unless_one_id_per_instance _ _ recording_node
             two_outputs []
             {| instance_ids := [0; 1]%nat; output_ids := [[1%nat]; []] |} eq_refl)).
    + exact Hsub.
    + intros id [H | [H | []]]; [| discriminate H].
      injection H as <-. simpl. lia.
    + exists []. split; [right; left; reflexivity |].
      right. split; [reflexivity | discriminate].
  - destruct (proj2 (sample_refuses_unless_one_id_per_instance _ _ recording_node
                two_outputs []
                {| instance_ids := [4; 5; 6]%nat; output_ids := [[1]; [0]; [1]]%nat |}
                eq_refl))
      as (H & _ & _).
    + repeat constructor; eexists; reflexivity.
    + rewrite H. reflexivity.
Defined.

(** *** Further properties of [sample] on a partition layer *)

Section MoreSampleFacts.

Variable data : Type.
Variable node : Type.
Variable sample_node : node -> data -> SamplingContext -> result data.

Lemma sample_groups_same_nodes (L1 L2 : PartitionLayer node) (ctx : SamplingContext)
    (groups : list (list nat * list nat)) :
  nodes L1 = nodes L2 ->
  forall d, sample_groups sample_node L1 ctx groups d
            = sample_groups sample_node L2 ctx groups d.
Proof.
  intros Hn. induction groups as [|[node_ids indices] rest IH]; intros d; simpl;
    [reflexivity |].
  destruct (Nat.eqb (length node_ids) 1) eqn:E1.
  - apply Nat.eqb_eq in E1. rewrite E1. simpl.
    destruct (node_ids !! 0%nat); [| reflexivity].
    destruct (take_indices (instance_ids ctx) indices); [| reflexivity]. simpl.
    rewrite Hn. destruct (nodes L2 !! n); [| reflexivity].
    destruct (sample_node _ d _); simpl; [apply IH | reflexivity].
  - reflexivity.
Qed.

(** X8.  What [sample] does on a partition layer does not depend on the
    number of outputs the layer declares: the test on [n_out] in the guard
    is never reached with an effect, since a list of no ids already fails
    the test before it. *)
Theorem sample_does_not_depend_on_n_out (L1 L2 : PartitionLayer node)
    (d : data) (ctx : SamplingContext) :
  nodes L1 = nodes L2 ->
  sample sample_node L1 d ctx = sample sample_node L2 d ctx.
Proof.
  intros Hn. unfold sample. apply sample_groups_same_nodes, Hn.
Qed.

Lemma unique_ids_repeat_others (id : nat) (k : nat) :
  List.filter (fun y => negb (Nat.eqb y id)) (unique_ids (concat (repeat [id] k))) = [].
Proof.
  induction k as [|k IH]; [reflexivity |].
  simpl. rewrite Nat.eqb_refl. simpl. rewrite IH. reflexivity.
Qed.

Lemma unique_ids_repeat (id : nat) (k : nat) :
  unique_ids (concat (repeat [id] (S k))) = [id].
Proof.
  simpl. rewrite unique_ids_repeat_others. reflexivity.
Qed.

Lemma requesters_all (id : nat) (ids : list nat) :
  requesters {| instance_ids := ids; output_ids := map (fun _ => [id]) ids |} id = ids.
Proof.
  unfold requesters. simpl.
  induction ids as [|i ids IH]; simpl; [reflexivity |].
  rewrite Nat.eqb_refl. simpl. f_equal. exact IH.
Qed.

Lemma map_const_repeat {A B : Type} (b : B) (l : list A) :
  map (fun _ => b) l = repeat b (length l).
Proof. induction l as [|a l IH]; simpl; [reflexivity | f_equal; exact IH]. Qed.

Lemma Forall_repeat_singleton (id : nat) (k : nat) :
  Forall (fun lst : list nat => exists i, lst = [i]) (repeat [id] k).
Proof. induction k; simpl; constructor; eauto. Qed.

(** X9.  When all the instances of a non-empty request ask for the same
    output of the layer, [sample] is the single sub-call to the internal
    node of that output, for all the instances. *)
Theorem sample_one_output_is_one_sub_call (partition_layer : PartitionLayer node)
    (d : data) (ids : list nat) (id : nat) (nd : node) :
  ids <> [] ->
  nodes partition_layer !! id = Some nd ->
  sample sample_node partition_layer d
         {| instance_ids := ids; output_ids := map (fun _ => [id]) ids |}
  = sample_node nd d (sub_context ids).
Proof.
  intros Hne Hnd. unfold sample, unique_outputs_ids. simpl output_ids.
  rewrite map_const_repeat.
  rewrite (unique_lists_singletons _ (Forall_repeat_singleton id (length ids))).
  destruct ids as [|i ids]; [contradiction |].
  assert (Hu : unique_ids (concat (repeat [id] (length (i :: ids)))) = [id])
    by apply unique_ids_repeat.
  rewrite Hu. rewrite <- (map_const_repeat [id] (i :: ids)).
  pose proof (requesters_all id (i :: ids)) as Hreq.
  assert (Hlen : length (i :: ids) = length (map (fun _ : nat => [id]) (i :: ids)))
    by (symmetry; apply List.length_map).
  pose proof (sample_groups_dispatch data node sample_node partition_layer
                {| instance_ids := i :: ids;
                   output_ids := map (fun _ => [id]) (i :: ids) |} Hlen [id] d) as Hd.
  set (ctx := {| instance_ids := i :: ids;
                 output_ids := map (fun _ => [id]) (i :: ids) |}) in *.
  change (output_ids ctx) with (map (fun _ : nat => [id]) (i :: ids)) in Hd.
  rewrite Hd. simpl dispatch. rewrite Hnd, Hreq.
  destruct (sample_node nd d (sub_context (i :: ids))); reflexivity.
Qed.

Lemma dispatch_out_of_range (partition_layer : PartitionLayer node)
    (ctx : SamplingContext) (ids : list nat) :
  (forall nd d c, exists d', sample_node nd d c = Ok d') ->
  Exists (fun id => length (nodes partition_layer) <= id)%nat ids ->
  forall d, dispatch sample_node partition_layer ctx ids d = Raise IndexError.
Proof.
  intros Htotal. induction 1 as [id ids Hid | id ids _ IH]; intros d; simpl.
  - rewrite (proj2 (lookup_ge_None _ _) Hid). reflexivity.
  - destruct (nodes partition_layer !! id) as [nd|]; [| reflexivity].
    destruct (Htotal nd d (sub_context (requesters ctx id))) as [d' ->].
    simpl. apply IH.
Qed.

(** X10.  When every instance requests exactly one output id, sub-calls do
    not fail, and some requested id is not an output of the layer, [sample]
    raises [IndexError] (from [partition_layer.nodes[node_id]]) and not the
    [ValueError] of the guard. *)
Theorem sample_unknown_output_raises_IndexError
    (partition_layer : PartitionLayer node) (d : data) (ctx : SamplingContext)
    (id : nat) :
  (forall nd d c, exists d', sample_node nd d c = Ok d') ->
  Forall (fun lst => exists i, lst = [i]) (output_ids ctx) ->
  length (instance_ids ctx) = length (output_ids ctx) ->
  In [id] (output_ids ctx) ->
  (length (nodes partition_layer) <= id)%nat ->
  sample sample_node partition_layer d ctx = Raise IndexError.
Proof.
  intros Htotal Hone Hlen Hin Hid.
  unfold sample, unique_outputs_ids.
  rewrite (unique_lists_singletons _ Hone).
  rewrite (sample_groups_dispatch data node sample_node partition_layer ctx Hlen).
  apply dispatch_out_of_range; [exact Htotal |].
  apply Exists_exists. exists id. split; [| exact Hid].
  apply list_elem_of_In. apply (proj1 (In_unique_ids _ _)).
  apply (proj2 (in_concat _ _)). exists [id]. split; [exact Hin | left; reflexivity].
Qed.

End MoreSampleFacts.

Lemma sample_does_not_depend_on_n_out_witness :
  sample recording_node {| n_out := 1; nodes := [10; 11]%nat |} []
         {| instance_ids := [4; 5]%nat; output_ids := [[1]; []]%nat |}
  = sample recording_node two_outputs []
           {| instance_ids := [4; 5]%nat; output_ids := [[1]; []]%nat |}.
Proof.
  apply (sample_does_not_depend_on_n_out _ _ recording_node). reflexivity.
Defined.

Lemma sample_one_output_is_one_sub_call_witness :
  sample recording_node two_outputs []
         {| instance_ids := [4; 5; 6]%nat; output_ids := [[1]; [1]; [1]]%nat |}
  = Ok [(11, [4; 5; 6])]%nat.
Proof.
  apply (sample_one_output_is_one_sub_call _ _ recording_node two_outputs []
           [4; 5; 6]%nat 1 11%nat).
  - discriminate.
  - reflexivity.
Defined.

Lemma sample_unknown_output_raises_IndexError_witness :
  sample recording_node two_outputs []
         {| instance_ids := [4; 5]%nat; output_ids := [[1]; [2]]%nat |}
  = Raise IndexError.
Proof.
  apply (sample_unknown_output_raises_IndexError _ _ recording_node two_outputs []
           {| instance_ids := [4; 5]%nat; output_ids := [[1]; [2]]%nat |} 2).
  - intros nd d c. eexists. reflexivity.
  - constructor; [eexists; reflexivity |]. constructor; [eexists; reflexivity |].
    constructor.
  - reflexivity.
  - right. left. reflexivity.
  - apply Nat.le_refl.
Defined.

End PartitionSampling.

(** ** spflow/torch/learning/general/nodes/leaves/parametric/geometric.py *)

Module GeometricLearning.

(** A float: a rational, or [None] for a value that is not a finite
    number.  In input data [None] is NaN, the marker of a missing value. *)
Abbreviation fl := (option Q).

Definition fadd (a b : fl) : fl :=
  match a, b with
  | Some x, Some y => Some (x + y)%Q
  | _, _ => None
  end.

Definition fsub (a b : fl) : fl :=
  match a, b with
  | Some x, Some y => Some (x - y)%Q
  | _, _ => None
  end.

Definition fmul (a b : fl) : fl :=
  match a, b with
  | Some x, Some y => Some (x * y)%Q
  | _, _ => None
  end.

(** A division by zero leaves no finite number. *)
Definition fdiv (a b : fl) : fl :=
  match a, b with
  | Some x, Some y => if Qeq_bool y 0 then None else Some (x / y)%Q
  | _, _ => None
  end.

(** [t.sum()]. *)
Definition fsum (t : list fl) : fl := fold_left fadd t (Some 0%Q).

(** [t == 0] on a scalar: false on what is not a number. *)
Definition is_zero (a : fl) : bool :=
  match a with
  | Some x => Qeq_bool x 0
  | None => false
  end.

Definition isnan (a : fl) : bool :=
  match a with
  | Some _ => false
  | None => true
  end.

(** [torch.isclose(a, torch.tensor(b))] with the defaults [rtol=1e-05],
    [atol=1e-08]: [|a - b| <= atol + rtol * |b|], false on what is not a
    finite number. *)
Definition rtol : Q := 1 # 100000.
Definition atol : Q := 1 # 100000000.

Definition isclose (a : fl) (b : Q) : bool :=
  match a with
  | Some x => Qle_bool (Qabs (x - b)) (atol + rtol * Qabs b)
  | None => false
  end.

(** The literal [1e-8]. *)
Definition tiny : Q := 1 # 100000000.

(** [a * b] on two column tensors, with broadcasting of a column of one
    row. *)
Definition mul_columns (a b : list fl) : result (list fl) :=
  if Nat.eqb (length a) (length b) then Ok (map (fun ab => fmul (fst ab) (snd ab)) (combine a b))
  else match a, b with
       | [x], _ => Ok (map (fmul x) b)
       | _, [y] => Ok (map (fun x => fmul x y) a)
       | _, _ => Raise RuntimeError
       end.

(** The storages of the tensors, by address.  A view ([reshape],
    [squeeze]) is a second tensor on the same address; indexing with a
    boolean mask and [torch.ones] allocate a new one. *)
Abbreviation heap := (gmap nat (list fl)).

Definition alloc (h : heap) (t : list fl) : nat * heap :=
  let a := fresh (dom h) in (a, <[a := t]> h).

(** The leaf: the index of its random variable ([scope.query]) and its
    success probability. *)
Record Geometric : Type := {
  scope_query : nat;
  p : fl
}.

(** Modelled from the spec: [Geometric.set_params], of the structure
    module that is not among the sources.  "Geometric: 0 < p <= 1";
    parameters out of domain or non-finite are an input-validation
    error. *)
Definition set_params (leaf : Geometric) (p_est : fl) : result Geometric :=
  match p_est with
  | Some q =>
      if negb (Qle_bool q 0) && Qle_bool q 1
      then Ok {| scope_query := scope_query leaf; p := Some q |}
      else Raise ValueError
  | None => Raise ValueError
  end.

(** The argument [nan_strategy] when it is not [None]: a string, a
    callable, or any other object. *)
Inductive strategy : Type :=
| Str (s : string)
| Callable (f : list fl -> list fl)
| Other.

(** [data[:, leaf.scope.query]] for the single variable of the leaf. *)
Fixpoint column (q : nat) (data : list (list fl)) : result (list fl) :=
  match data with
  | [] => Ok []
  | row :: rest =>
      match row !! q with
      | Some x => do xs <- column q rest; Ok (x :: xs)
      | None => Raise IndexError
      end
  end.

(** [t[~nan_mask.squeeze(1)]]: the rows of [t] whose data is not NaN. *)
Fixpoint drop_nan {A : Type} (scope_data : list fl) (t : list A) : list A :=
  match scope_data, t with
  | x :: xs, a :: t' => if isnan x then drop_nan xs t' else a :: drop_nan xs t'
  | _, _ => []
  end.

Section Learning.

(** [leaf.check_support(scope_data, is_scope_data=True)] on one entry; the
    method belongs to the structure module, which is not among the
    sources. *)
Variable check_support_of : Geometric -> fl -> bool.

(** Lines 129 to 151: from the normalisation of the weights on.  [weights]
    is the address of the weights tensor at that point.  When [n_trials]
    is zero, [p_est] is bound to the Python float [1e-8] and not to a
    tensor, and [torch.isclose(p_est, torch.tensor(0.0))], which takes
    tensors only, raises [TypeError] before [set_params] is reached. *)
Definition estimate (leaf : Geometric) (scope_data : list fl) (weights : nat)
    (bias_correction : bool) (h : heap) : heap * result Geometric :=
  let w := default [] (h !! weights) in
  (* weights /= weights.sum() / scope_data.shape[0] *)
  let c := fdiv (fsum w) (Some (inject_Z (Z.of_nat (length scope_data)))) in
  let w' := map (fun x => fdiv x c) w in
  let h' := <[weights := w']> h in
  (* n_total = weights.sum(); if bias_correction: n_total -= 1 *)
  let n_total := if bias_correction then fsub (fsum w') (Some 1%Q) else fsum w' in
  (* n_trials = (weights * scope_data).sum() *)
  match mul_columns w' scope_data with
  | Raise e => (h', Raise e)
  | Ok prod =>
      let n_trials := fsum prod in
      (* p_est = 1e-8 if n_trials == 0 else n_total / n_trials *)
      if is_zero n_trials then (h', Raise TypeError)
      else
        let p_est := fdiv n_total n_trials in
        let p_est :=
          if isclose p_est 0 then Some tiny
          else if isclose p_est 1 then Some (1 - tiny)%Q
          else p_est in
        (h', set_params leaf p_est)
  end.

(** [maximum_likelihood_estimation(leaf, data, weights, bias_correction,
    nan_strategy, check_support)].  [weights] is the address of the
    caller's one-dimensional tensor, if one is passed.  The call is taken
    to be computed: the memo table that [@dispatch(memoize=True)] keeps in
    the dispatch context holds no entry for the leaf. *)
Definition maximum_likelihood_estimation (leaf : Geometric) (data : list (list fl))
    (weights : option nat) (bias_correction : bool) (nan_strategy : option strategy)
    (check_support : bool) (h : heap) : heap * result Geometric :=
  match column (scope_query leaf) data with
  | Raise e => (h, Raise e)
  | Ok scope_data =>
      (* if weights is None: weights = torch.ones(data.shape[0]) *)
      let '(weights, h) :=
        match weights with
        | Some a => (a, h)
        | None => alloc h (repeat (Some 1%Q) (length data))
        end in
      if negb (Nat.eqb (length (default [] (h !! weights))) (length data))
      then (h, Raise ValueError)
      else
      (* weights = weights.reshape(-1, 1): a view *)
      if check_support && existsb (fun x => negb (check_support_of leaf x)) scope_data
      then (h, Raise ValueError)
      else
      let nan_mask := map isnan scope_data in
      if forallb (fun b => b) nan_mask then (h, Raise ValueError)
      else
      match nan_strategy with
      | None =>
          if existsb (fun b => b) nan_mask then (h, Raise ValueError)
          else estimate leaf scope_data weights bias_correction h
      | Some (Str s) =>
          if String.eqb s "ignore"
          then
            let '(weights', h') :=
              alloc h (drop_nan scope_data (default [] (h !! weights))) in
            estimate leaf (drop_nan scope_data scope_data) weights' bias_correction h'
          else (h, Raise ValueError)
      | Some (Callable f) =>
          estimate leaf (f scope_data) weights bias_correction h
      | Some Other => (h, Raise ValueError)
      end
  end.

(** [em(leaf, data, check_support, dispatch_ctx)].  [grad] is the address
    of [dispatch_ctx.cache["log_likelihood"][leaf].grad], if the cache has
    the entry. *)
Definition em (leaf : Geometric) (data : list (list fl)) (check_support : bool)
    (grad : option nat) (h : heap) : heap * result Geometric :=
  match grad with
  | None => (h, Raise KeyError)
  | Some expectations =>
      (* expectations /= expectations.sum() *)
      let e := default [] (h !! expectations) in
      let h' := <[expectations := map (fun x => fdiv x (fsum e)) e]> h in
      (* weights=expectations.squeeze(1): a view *)
      maximum_likelihood_estimation leaf data (Some expectations) false None
                                    check_support h'
  end.

End Learning.

(** *** Sums of finite tensors *)

Definition qsum (l : list Q) : Q := fold_left Qplus l 0%Q.

Lemma fold_left_Qplus_compat (l : list Q) :
  forall a b : Q, (a == b)%Q -> (fold_left Qplus l a == fold_left Qplus l b)%Q.
Proof.
  induction l as [|x l IH]; intros a b Hab; simpl; [exact Hab |].
  apply IH. rewrite Hab. reflexivity.
Qed.

Lemma fold_left_Qplus_shift (l : list Q) :
  forall a : Q, (fold_left Qplus l a == a + qsum l)%Q.
Proof.
  unfold qsum. induction l as [|x l IH]; intros a; simpl; [ring |].
  rewrite (IH (a + x)%Q), (IH (0 + x)%Q). ring.
Qed.

Lemma qsum_cons (x : Q) (l : list Q) : (qsum (x :: l) == x + qsum l)%Q.
Proof.
  unfold qsum at 1. simpl. rewrite fold_left_Qplus_shift. ring.
Qed.

Lemma qsum_div (c : Q) (l : list Q) :
  (qsum (map (fun w => w / c) l) == qsum l / c)%Q.
Proof.
  induction l as [|x l IH]; simpl.
  - unfold qsum. simpl. unfold Qdiv. ring.
  - rewrite !qsum_cons, IH. unfold Qdiv. ring.
Qed.

Lemma qsum_nonneg (l : list Q) :
  Forall (fun w => (0 <= w)%Q) l -> (0 <= qsum l)%Q.
Proof.
  induction 1 as [|x l Hx _ IH]; [unfold qsum; simpl; apply Qle_refl |].
  rewrite qsum_cons. replace 0%Q with (0 + 0)%Q by reflexivity.
  apply Qplus_le_compat; assumption.
Qed.

Lemma fsum_finite (l : list Q) : fsum (map Some l) = Some (qsum l).
Proof.
  unfold fsum, qsum. generalize 0%Q.
  induction l as [|x l IH]; intros a; simpl; [reflexivity | apply IH].
Qed.

Lemma map_fdiv_finite (c : Q) (l : list Q) :
  ~ (c == 0)%Q ->
  map (fun x => fdiv x (Some c)) (map Some l) = map Some (map (fun w => (w / c)%Q) l).
Proof.
  intros Hc. rewrite !map_map. apply map_ext. intros w. simpl.
  destruct (Qeq_bool c 0) eqn:E; [apply Qeq_bool_iff in E; contradiction | reflexivity].
Qed.

Lemma inject_length_pos {A : Type} (l : list A) :
  l <> [] -> (0 < inject_Z (Z.of_nat (length l)))%Q.
Proof.
  intros H. destruct l; [contradiction |].
  replace 0%Q with (inject_Z 0) by reflexivity.
  rewrite <- Zlt_Qlt. simpl. lia.
Qed.

(** Dividing finite weights of non-zero sum by [sum / n] leaves weights
    that sum to [n]. *)
Lemma normalised_sum (ws : list Q) (n : Q) :
  ~ (qsum ws == 0)%Q -> ~ (n == 0)%Q ->
  (qsum (map (fun w => w / (qsum ws / n)) ws) == n)%Q.
Proof.
  intros Hs Hn. rewrite qsum_div. field. split; assumption.
Qed.

(** *** The path through the checks *)

Lemma forallb_mask (xs : list fl) :
  forallb (fun b : bool => b) (map isnan xs) = forallb isnan xs.
Proof. induction xs as [|x xs IH]; simpl; [reflexivity | rewrite IH; reflexivity]. Qed.

Lemma existsb_mask (xs : list fl) :
  existsb (fun b : bool => b) (map isnan xs) = existsb isnan xs.
Proof. induction xs as [|x xs IH]; simpl; [reflexivity | rewrite IH; reflexivity]. Qed.

Lemma column_length (q : nat) (data : list (list fl)) :
  forall xs, column q data = Ok xs -> length xs = length data.
Proof.
  induction data as [|row data IH]; simpl; intros xs H.
  - injection H as <-. reflexivity.
  - destruct (row !! q) as [x|]; [| discriminate].
    destruct (column q data) as [xs'|e]; [| discriminate].
    simpl in H. injection H as <-. simpl. f_equal. apply IH. reflexivity.
Qed.

Section LearningFacts.

Variable check_support_of : Geometric -> fl -> bool.

Definition in_support (leaf : Geometric) (check_support : bool) (xs : list fl) : Prop :=
  check_support = true -> Forall (fun x => check_support_of leaf x = true) xs.

Lemma support_check_passes (leaf : Geometric) (check_support : bool) (xs : list fl) :
  in_support leaf check_support xs ->
  check_support && existsb (fun x => negb (check_support_of leaf x)) xs = false.
Proof.
  intros H. destruct check_support; [| reflexivity]. simpl.
  specialize (H eq_refl). induction H as [|x xs Hx _ IH]; simpl; [reflexivity |].
  rewrite Hx, IH. reflexivity.
Qed.

(** With caller-supplied weights of the right length, data in the support
    and a column that is not entirely NaN, the call reaches the handling of
    [nan_strategy]. *)
Lemma mle_reaches_strategy (leaf : Geometric) (data : list (list fl)) (xs ws : list fl)
    (r : nat) (bias_correction : bool) (nan_strategy : option strategy)
    (check_support : bool) (h : heap) :
  column (scope_query leaf) data = Ok xs ->
  h !! r = Some ws ->
  length ws = length data ->
  in_support leaf check_support xs ->
  forallb isnan xs = false ->
  maximum_likelihood_estimation check_support_of leaf data (Some r) bias_correction
                                nan_strategy check_support h
  = match nan_strategy with
    | None =>
        if existsb isnan xs then (h, Raise ValueError)
        else estimate leaf xs r bias_correction h
    | Some (Str s) =>
        if String.eqb s "ignore"
        then estimate leaf (drop_nan xs xs) (fresh (dom h)) bias_correction
                      (<[fresh (dom h) := drop_nan xs ws]> h)
        else (h, Raise ValueError)
    | Some (Callable f) => estimate leaf (f xs) r bias_correction h
    | Some Other => (h, Raise ValueError)
    end.
Proof.
  intros Hcol Hr Hlen Hsup Hnan.
  unfold maximum_likelihood_estimation. rewrite Hcol, Hr. simpl.
  rewrite Hlen, Nat.eqb_refl. simpl.
  rewrite (support_check_passes _ _ _ Hsup), forallb_mask, Hnan, existsb_mask.
  destruct nan_strategy as [[s | f |] |]; try reflexivity.
Qed.

End LearningFacts.

Lemma estimate_result_lookup (leaf : Geometric) (scope_data : list fl) (a1 a2 : nat)
    (bias_correction : bool) (h1 h2 : heap) :
  h1 !! a1 = h2 !! a2 ->
  snd (estimate leaf scope_data a1 bias_correction h1)
  = snd (estimate leaf scope_data a2 bias_correction h2).
Proof.
  intros H. unfold estimate. rewrite H.
  destruct (mul_columns _ scope_data) as [prod|e]; [| reflexivity].
  destruct (is_zero (fsum prod)); reflexivity.
Qed.






Section StrategyFacts.

Variable check_support_of : Geometric -> fl -> bool.

(** Every exit before the handling of [nan_strategy] is an exception. *)
Lemma mle_raises_or_reaches (leaf : Geometric) (data : list (list fl)) (xs : list fl)
    (weights : option nat) (bias_correction : bool) (nan_strategy : option strategy)
    (check_support : bool) (h : heap) :
  column (scope_query leaf) data = Ok xs ->
  raises (snd (maximum_likelihood_estimation check_support_of leaf data weights
                 bias_correction nan_strategy check_support h))
  \/ (forallb isnan xs = false
      /\ exists (a : nat) (h1 : heap),
           maximum_likelihood_estimation check_support_of leaf data weights
             bias_correction nan_strategy check_support h
           = match nan_strategy with
             | None =>
                 if existsb isnan xs then (h1, Raise ValueError)
                 else estimate leaf xs a bias_correction h1
             | Some (Str s) =>
                 if String.eqb s "ignore"
                 then estimate leaf (drop_nan xs xs) (fresh (dom h1)) bias_correction
                        (<[fresh (dom h1) := drop_nan xs (default [] (h1 !! a))]> h1)
                 else (h1, Raise ValueError)
             | Some (Callable f) => estimate leaf (f xs) a bias_correction h1
             | Some Other => (h1, Raise ValueError)
             end).
Proof.
  intros Hcol. unfold maximum_likelihood_estimation. rewrite Hcol.
  destruct (match weights with
            | Some a => (a, h)
            | None => alloc h (repeat (Some 1%Q) (length data))
            end) as [a h1].
  destruct (negb _); [left; eexists; reflexivity |].
  destruct (check_support && _); [left; eexists; reflexivity |].
  rewrite forallb_mask, existsb_mask.
  destruct (forallb isnan xs); [left; eexists; reflexivity |].
  right. split; [reflexivity |]. exists a, h1.
  destruct nan_strategy as [[s | f |] |]; reflexivity.
Qed.


End StrategyFacts.

(** *** The estimate *)

(** [sum(w * x)] on finite columns of equal length. *)
Definition dot (ws qs : list Q) : Q :=
  qsum (map (fun wq => (fst wq * snd wq)%Q) (combine ws qs)).

(** What is handed to [set_params] for the quotient [e]: the two
    [torch.isclose] edge cases. *)
Definition clamped (e : Q) : Q :=
  if Qle_bool (Qabs (e - 0)) (atol + rtol * Qabs 0) then tiny
  else if Qle_bool (Qabs (e - 1)) (atol + rtol * Qabs 1) then (1 - tiny)%Q
  else e.

Lemma mul_columns_finite (ws qs : list Q) :
  length ws = length qs ->
  mul_columns (map Some ws) (map Some qs)
  = Ok (map Some (map (fun wq => (fst wq * snd wq)%Q) (combine ws qs))).
Proof.
  intros H. unfold mul_columns. rewrite !length_map, H, Nat.eqb_refl.
  f_equal. clear H. revert qs.
  induction ws as [|w ws IH]; intros [|q qs]; simpl; try reflexivity.
  f_equal. apply IH.
Qed.

Lemma drop_nan_complete {A : Type} (xs : list fl) :
  forall t : list A,
    existsb isnan xs = false -> length t = length xs -> drop_nan xs t = t.
Proof.
  induction xs as [|x xs IH]; intros [|a t] Hnan Hlen; simpl in *;
    try discriminate; try reflexivity.
  apply orb_false_iff in Hnan. destruct Hnan as [Hx Hnan].
  rewrite Hx. f_equal. apply IH; [exact Hnan | lia].
Qed.

Lemma existsb_isnan_finite (qs : list Q) : existsb isnan (map Some qs) = false.
Proof. induction qs as [|q qs IH]; simpl; [reflexivity | exact IH]. Qed.

Lemma forallb_isnan_finite (qs : list Q) :
  qs <> [] -> forallb isnan (map Some qs) = false.
Proof. destruct qs; [contradiction | reflexivity]. Qed.

Lemma Qeq_bool_false (x : Q) : ~ (x == 0)%Q -> Qeq_bool x 0 = false.
Proof.
  intros H. destruct (Qeq_bool x 0) eqn:E; [| reflexivity].
  apply Qeq_bool_iff in E. contradiction.
Qed.

(** The estimation stage on finite data and weights of non-zero sum. *)
Lemma estimate_finite (leaf : Geometric) (qs ws : list Q) (r : nat)
    (bias_correction : bool) (h : heap) :
  h !! r = Some (map Some ws) ->
  length ws = length qs ->
  qs <> [] ->
  ~ (qsum ws == 0)%Q ->
  let n := inject_Z (Z.of_nat (length qs)) in
  let W := map (fun w => (w / (qsum ws / n))%Q) ws in
  let N := if bias_correction then (qsum W - 1)%Q else qsum W in
  let T := dot W qs in
  estimate leaf (map Some qs) r bias_correction h
  = (<[r := map Some W]> h,
     if Qeq_bool T 0 then Raise TypeError
     else set_params leaf (Some (clamped (N / T)%Q))).
Proof.
  intros Hr Hlen Hqs Hsum n W N T.
  assert (Hn : ~ (n == 0)%Q).
  { intros E. pose proof (inject_length_pos qs Hqs) as Hpos.
    fold n in Hpos. rewrite E in Hpos. discriminate. }
  assert (Hc : ~ (qsum ws / n == 0)%Q).
  { intros E. apply Hsum.
    assert (Hq : (qsum ws == qsum ws / n * n)%Q) by (field; exact Hn).
    rewrite Hq, E. ring. }
  unfold estimate. rewrite Hr. simpl default.
  rewrite fsum_finite, length_map. fold n.
  assert (Hdiv : fdiv (Some (qsum ws)) (Some n) = Some (qsum ws / n)%Q)
    by (unfold fdiv; rewrite (Qeq_bool_false _ Hn); reflexivity).
  rewrite Hdiv, (map_fdiv_finite _ _ Hc). fold W.
  rewrite fsum_finite.
  rewrite mul_columns_finite by (unfold W; rewrite length_map; exact Hlen).
  rewrite fsum_finite. fold (dot W qs). fold T.
  unfold is_zero.
  assert (Hnt : (if bias_correction then fsub (Some (qsum W)) (Some 1%Q)
                 else Some (qsum W)) = Some N)
    by (unfold N; destruct bias_correction; reflexivity).
  rewrite Hnt.
  destruct (Qeq_bool T 0) eqn:ET; [reflexivity |].
  f_equal. f_equal.
  unfold fdiv. rewrite ET. unfold isclose, clamped.
  destruct (Qle_bool (Qabs (N / T - 0)) (atol + rtol * Qabs 0)); [reflexivity |].
  destruct (Qle_bool (Qabs (N / T - 1)) (atol + rtol * Qabs 1)); reflexivity.
Qed.

Lemma clamped_cases (e e' : Q) :
  (e == e')%Q ->
  ((Qabs e' <= atol)%Q -> clamped e = tiny)
  /\ (~ (Qabs e' <= atol)%Q -> (Qabs (e' - 1) <= atol + rtol)%Q ->
      clamped e = (1 - tiny)%Q)
  /\ (~ (Qabs e' <= atol)%Q -> ~ (Qabs (e' - 1) <= atol + rtol)%Q ->
      (clamped e == e')%Q).
Proof.
  intros He. unfold clamped.
  assert (H0 : Qle_bool (Qabs (e - 0)) (atol + rtol * Qabs 0) = true
               <-> (Qabs e' <= atol)%Q).
  { rewrite Qle_bool_iff.
    assert (E1 : (e - 0 == e')%Q) by (rewrite He; ring).
    assert (E2 : (atol + rtol * Qabs 0 == atol)%Q) by reflexivity.
    rewrite E1, E2. reflexivity. }
  assert (H1 : Qle_bool (Qabs (e - 1)) (atol + rtol * Qabs 1) = true
               <-> (Qabs (e' - 1) <= atol + rtol)%Q).
  { rewrite Qle_bool_iff.
    assert (E1 : (e - 1 == e' - 1)%Q) by (rewrite He; reflexivity).
    assert (E2 : (atol + rtol * Qabs 1 == atol + rtol)%Q) by reflexivity.
    rewrite E1, E2. reflexivity. }
  destruct (Qle_bool (Qabs (e - 0)) (atol + rtol * Qabs 0));
    [| destruct (Qle_bool (Qabs (e - 1)) (atol + rtol * Qabs 1))].
  - split; [reflexivity | split]; intros Hn; exfalso; apply Hn, H0; reflexivity.
  - split; [| split].
    + intros H. apply H0 in H. discriminate.
    + reflexivity.
    + intros _ Hn. exfalso. apply Hn, H1. reflexivity.
  - split; [| split].
    + intros H. apply H0 in H. discriminate.
    + intros _ H. apply H1 in H. discriminate.
    + intros _ _. exact He.
Qed.

Lemma divided_nonneg (c : Q) (ws : list Q) :
  (0 < c)%Q ->
  Forall (fun w => (0 <= w)%Q) ws ->
  Forall (fun w => (0 <= w)%Q) (map (fun w => (w / c)%Q) ws).
Proof.
  intros Hc. induction 1 as [|w ws Hw _ IH]; simpl; constructor; [| exact IH].
  apply Qle_shift_div_l; [exact Hc | rewrite Qmult_0_l; exact Hw].
Qed.

Lemma dot_div (c : Q) (ws : list Q) :
  forall qs, (dot (map (fun w => (w / c)%Q) ws) qs == dot ws qs / c)%Q.
Proof.
  unfold dot.
  induction ws as [|w ws IH]; intros [|q qs]; simpl;
    try (unfold qsum; simpl; unfold Qdiv; ring).
  rewrite !qsum_cons, IH. unfold Qdiv. ring.
Qed.

Section EstimateFacts.

Variable check_support_of : Geometric -> fl -> bool.

(** The call on complete finite data, without a strategy or with
    "ignore": a zero denominator ends in the [TypeError] of
    [torch.isclose]; otherwise [set_params] receives the quotient after the
    two edge cases. *)
Lemma mle_complete_data (leaf : Geometric)
    (data : list (list fl)) (qs ws : list Q) (r : nat)
    (bias_correction check_support : bool) (nan_strategy : option strategy)
    (h : heap) :
  column (scope_query leaf) data = Ok (map Some qs) ->
  h !! r = Some (map Some ws) ->
  length ws = length data ->
  ~ (qsum ws == 0)%Q ->
  in_support check_support_of leaf check_support (map Some qs) ->
  nan_strategy = None \/ nan_strategy = Some (Str "ignore") ->
  let n := inject_Z (Z.of_nat (length data)) in
  let W := map (fun w => (w / (qsum ws / n))%Q) ws in
  let N := if bias_correction then (qsum W - 1)%Q else qsum W in
  let T := dot W qs in
  snd (maximum_likelihood_estimation check_support_of leaf data (Some r)
         bias_correction nan_strategy check_support h)
  = if Qeq_bool T 0 then Raise TypeError
    else set_params leaf (Some (clamped (N / T)%Q)).
Proof.
  intros Hcol Hr Hlen Hs0 Hsup Hstrat n W N T.
  pose proof (column_length _ _ _ Hcol) as Hqs. rewrite length_map in Hqs.
  assert (Hne : qs <> []).
  { intros ->. destruct ws; [| simpl in *; lia]. apply Hs0. reflexivity. }
  assert (Hall : forallb isnan (map Some qs) = false)
    by (apply forallb_isnan_finite, Hne).
  rewrite (mle_reaches_strategy check_support_of leaf data (map Some qs)
             (map Some ws) r bias_correction nan_strategy check_support h
             Hcol Hr) by (try rewrite length_map; assumption).
  assert (Hlen' : length ws = length qs) by congruence.
  destruct Hstrat as [-> | ->].
  - rewrite existsb_isnan_finite.
    rewrite (estimate_finite leaf qs ws r bias_correction h Hr Hlen' Hne Hs0).
    simpl. rewrite Hqs. reflexivity.
  - simpl String.eqb. cbv iota.
    rewrite !drop_nan_complete
      by (try apply existsb_isnan_finite; rewrite !length_map; congruence).
    rewrite (estimate_finite leaf qs ws (fresh (dom h)) bias_correction
               (<[fresh (dom h) := map Some ws]> h)
               (lookup_insert_eq _ _ _) Hlen' Hne Hs0).
    simpl. rewrite Hqs. reflexivity.
Qed.

(** X21.  On complete finite data [qs] with non-negative weights [ws] of
    positive sum, without a strategy or with "ignore", when the
    denominator [sum(w * x)] is not zero: the weights are divided so that
    they sum to the number of rows [n]; the quotient is
    [e = N / sum(w * x)], with [N = n], or [n - 1] under bias correction;
    [set_params] receives [1e-8] when [e] is within [1e-8] of 0,
    [1 - 1e-8] when [e] is 1 (or within the [isclose] tolerance of 1), and
    [e] otherwise. *)
Theorem geometric_estimate_is_clamped_ratio (leaf : Geometric)
    (data : list (list fl)) (qs ws : list Q) (r : nat)
    (bias_correction check_support : bool) (nan_strategy : option strategy)
    (h : heap) :
  column (scope_query leaf) data = Ok (map Some qs) ->
  h !! r = Some (map Some ws) ->
  length ws = length data ->
  Forall (fun w => (0 <= w)%Q) ws ->
  (0 < qsum ws)%Q ->
  in_support check_support_of leaf check_support (map Some qs) ->
  nan_strategy = None \/ nan_strategy = Some (Str "ignore") ->
  let n := inject_Z (Z.of_nat (length data)) in
  let W := map (fun w => (w / (qsum ws / n))%Q) ws in
  let T := dot W qs in
  let e := ((if bias_correction then n - 1 else n) / T)%Q in
  ~ (T == 0)%Q ->
  (qsum W == n)%Q
  /\ Forall (fun w => (0 <= w)%Q) W
  /\ exists v : Q,
       snd (maximum_likelihood_estimation check_support_of leaf data (Some r)
              bias_correction nan_strategy check_support h)
       = set_params leaf (Some v)
       /\ ((Qabs e <= atol)%Q -> v = tiny)
       /\ ((e == 0)%Q -> v = tiny)
       /\ ((e == 1)%Q -> v = (1 - tiny)%Q)
       /\ (~ (Qabs e <= atol)%Q -> (Qabs (e - 1) <= atol + rtol)%Q ->
           v = (1 - tiny)%Q)
       /\ (~ (Qabs e <= atol)%Q -> ~ (Qabs (e - 1) <= atol + rtol)%Q ->
           (v == e)%Q).
Proof.
  intros Hcol Hr Hlen Hpos Hsum Hsup Hstrat n W T e HT.
  pose proof (column_length _ _ _ Hcol) as Hqs. rewrite length_map in Hqs.
  assert (Hs0 : ~ (qsum ws == 0)%Q).
  { intros E. rewrite E in Hsum. discriminate. }
  assert (Hne : qs <> []).
  { intros ->. destruct ws; [| simpl in *; lia]. apply Hs0. reflexivity. }
  assert (Hn : (0 < n)%Q).
  { unfold n. rewrite <- Hqs. apply inject_length_pos, Hne. }
  assert (Hn0 : ~ (n == 0)%Q).
  { intros E. rewrite E in Hn. discriminate. }
  assert (HW : (qsum W == n)%Q) by (apply normalised_sum; assumption).
  split; [exact HW |]. split.
  { apply divided_nonneg; [| exact Hpos].
    apply Qlt_shift_div_l; [exact Hn | rewrite Qmult_0_l; exact Hsum]. }
  set (N := if bias_correction then (qsum W - 1)%Q else qsum W).
  assert (He : (N / T == e)%Q).
  { unfold e, N. destruct bias_correction; rewrite HW; reflexivity. }
  assert (Hrun : snd (maximum_likelihood_estimation check_support_of leaf data (Some r)
                        bias_correction nan_strategy check_support h)
                 = set_params leaf (Some (clamped (N / T)%Q))).
  { rewrite (mle_complete_data leaf data qs ws r bias_correction check_support
               nan_strategy h Hcol Hr Hlen Hs0 Hsup Hstrat).
    cbv zeta. fold n W T N. rewrite (Qeq_bool_false _ HT). reflexivity. }
  exists (clamped (N / T)%Q). split; [exact Hrun |].
  destruct (clamped_cases (N / T)%Q e He) as (Hzero & Hone & Hother).
  assert (Habs1 : ~ (Qabs 1 <= atol)%Q)
    by (intros H1; apply Qle_bool_iff in H1; discriminate H1).
  split; [exact Hzero |]. split; [| split; [| split; [exact Hone | exact Hother]]].
  - intros E. apply Hzero. rewrite E. apply Qle_bool_iff. reflexivity.
  - intros E. apply Hone; rewrite E; [exact Habs1 |].
    apply Qle_bool_iff. reflexivity.
Qed.

(** X22.  On complete finite data with finite weights of non-zero sum,
    without a strategy or with "ignore", a denominator [sum(w * x)] that
    is zero makes the call raise [TypeError]: [p_est] is then the Python
    float [1e-8], which [torch.isclose] does not take. *)
Theorem zero_denominator_raises (leaf : Geometric)
    (data : list (list fl)) (qs ws : list Q) (r : nat)
    (bias_correction check_support : bool) (nan_strategy : option strategy)
    (h : heap) :
  column (scope_query leaf) data = Ok (map Some qs) ->
  h !! r = Some (map Some ws) ->
  length ws = length data ->
  ~ (qsum ws == 0)%Q ->
  in_support check_support_of leaf check_support (map Some qs) ->
  nan_strategy = None \/ nan_strategy = Some (Str "ignore") ->
  (dot ws qs == 0)%Q ->
  snd (maximum_likelihood_estimation check_support_of leaf data (Some r)
         bias_correction nan_strategy check_support h)
  = Raise TypeError.
Proof.
  intros Hcol Hr Hlen Hs0 Hsup Hstrat Hdot.
  rewrite (mle_complete_data leaf data qs ws r bias_correction check_support
             nan_strategy h Hcol Hr Hlen Hs0 Hsup Hstrat).
  cbv zeta.
  set (c := (qsum ws / inject_Z (Z.of_nat (length data)))%Q).
  assert (HT : (dot (map (fun w => (w / c)%Q) ws) qs == dot ws qs / c)%Q)
    by apply dot_div.
  assert (E : Qeq_bool (dot (map (fun w => (w / c)%Q) ws) qs) 0 = true).
  { apply Qeq_bool_iff. rewrite HT, Hdot. unfold Qdiv. ring. }
  rewrite E. reflexivity.
Qed.

End EstimateFacts.

(** *** The weights tensor of the caller *)

Lemma estimate_heap (leaf : Geometric) (scope_data : list fl) (a : nat)
    (bias_correction : bool) (h : heap) :
  fst (estimate leaf scope_data a bias_correction h)
  = <[a := map (fun x => fdiv x (fdiv (fsum (default [] (h !! a)))
                                    (Some (inject_Z (Z.of_nat (length scope_data))))))
               (default [] (h !! a))]> h.
Proof.
  unfold estimate. destruct (mul_columns _ scope_data) as [prod|e]; [| reflexivity].
  destruct (is_zero (fsum prod)); reflexivity.
Qed.

Section WeightsFacts.

Variable check_support_of : Geometric -> fl -> bool.

(** The weights [ws] after [weights /= weights.sum() / n]. *)
Definition normalised (ws : list fl) (n : nat) : list fl :=
  map (fun x => fdiv x (fdiv (fsum ws) (Some (inject_Z (Z.of_nat n))))) ws.

(** C10 (amended).  For a call that passes the checks on the weights, the
    support and the column: without a strategy on complete data, and with
    a callable strategy, the tensor at the caller's address holds the
    weights divided by [sum / rows] afterwards, which sum to the number of
    rows when they are finite with a non-zero sum, and no other tensor of
    the caller changes; with "ignore" the division is done on a newly
    allocated tensor and the caller's tensor is as before, whether or not a
    row is dropped; [em] divides the cached gradient by its sum and then, as
    the weights of the estimation, by [sum / rows], both at its own
    address. *)
Theorem weights_divided_in_place_unless_ignored (leaf : Geometric)
    (data : list (list fl)) (xs ws : list fl) (r : nat)
    (bias_correction check_support : bool) (h : heap) :
  column (scope_query leaf) data = Ok xs ->
  h !! r = Some ws ->
  length ws = length data ->
  in_support check_support_of leaf check_support xs ->
  forallb isnan xs = false ->
  (existsb isnan xs = false ->
     let h' := fst (maximum_likelihood_estimation check_support_of leaf data (Some r)
                      bias_correction None check_support h) in
     h' !! r = Some (normalised ws (length xs))
     /\ forall a, a <> r -> h' !! a = h !! a)
  /\ (forall f,
        let h' := fst (maximum_likelihood_estimation check_support_of leaf data (Some r)
                         bias_correction (Some (Callable f)) check_support h) in
        h' !! r = Some (normalised ws (length (f xs)))
        /\ forall a, a <> r -> h' !! a = h !! a)
  /\ (forall qs n, ws = map Some qs -> ~ (qsum qs == 0)%Q -> n <> 0%nat ->
        exists s, fsum (normalised ws n) = Some s
                  /\ (s == inject_Z (Z.of_nat n))%Q)
  /\ (let h' := fst (maximum_likelihood_estimation check_support_of leaf data (Some r)
                       bias_correction (Some (Str "ignore")) check_support h) in
      forall a, a ∈ dom h -> h' !! a = h !! a)
  /\ (existsb isnan xs = false ->
      let h' := fst (em check_support_of leaf data check_support (Some r) h) in
      h' !! r = Some (normalised (map (fun x => fdiv x (fsum ws)) ws) (length xs))
      /\ forall a, a <> r -> h' !! a = h !! a).
Proof.
  intros Hcol Hr Hlen Hsup Hnan.
  split; [| split; [| split; [| split]]].
  - intros Hcomplete h'. unfold h'.
    rewrite (mle_reaches_strategy check_support_of leaf data xs ws r bias_correction
               None check_support h Hcol Hr Hlen Hsup Hnan), Hcomplete.
    rewrite estimate_heap, Hr. simpl default. split.
    + apply lookup_insert_eq.
    + intros a Ha. apply lookup_insert_ne. congruence.
  - intros f h'. unfold h'.
    rewrite (mle_reaches_strategy check_support_of leaf data xs ws r bias_correction
               (Some (Callable f)) check_support h Hcol Hr Hlen Hsup Hnan).
    rewrite estimate_heap, Hr. simpl default. split.
    + apply lookup_insert_eq.
    + intros a Ha. apply lookup_insert_ne. congruence.
  - intros qs n -> Hs Hn.
    assert (Hn0 : ~ (inject_Z (Z.of_nat n) == 0)%Q).
    { intros E.
      assert (Hpos : (inject_Z 0 < inject_Z (Z.of_nat n))%Q)
        by (rewrite <- Zlt_Qlt; lia).
      rewrite E in Hpos. discriminate. }
    assert (Hc : ~ (qsum qs / inject_Z (Z.of_nat n) == 0)%Q).
    { intros E. apply Hs.
      assert (Hq : (qsum qs == qsum qs / inject_Z (Z.of_nat n) * inject_Z (Z.of_nat n))%Q)
        by (field; exact Hn0).
      rewrite Hq, E. ring. }
    unfold normalised. rewrite fsum_finite.
    assert (Hdiv : fdiv (Some (qsum qs)) (Some (inject_Z (Z.of_nat n)))
                   = Some (qsum qs / inject_Z (Z.of_nat n))%Q)
      by (unfold fdiv; rewrite (Qeq_bool_false _ Hn0); reflexivity).
    rewrite Hdiv, (map_fdiv_finite _ _ Hc), fsum_finite.
    eexists. split; [reflexivity |]. apply normalised_sum; assumption.
  - intros h' a Ha. unfold h'.
    rewrite (mle_reaches_strategy check_support_of leaf data xs ws r bias_correction
               (Some (Str "ignore")) check_support h Hcol Hr Hlen Hsup Hnan).
    simpl String.eqb. cbv iota. rewrite estimate_heap.
    assert (Hfresh : fresh (dom h) ∉ dom h) by apply is_fresh.
    rewrite !lookup_insert_ne; [reflexivity | |]; intros E; apply Hfresh;
      rewrite E; exact Ha.
  - intros Hcomplete h'. unfold h', em. rewrite Hr. simpl default.
    set (e1 := map (fun x => fdiv x (fsum ws)) ws).
    assert (Hr1 : <[r := e1]> h !! r = Some e1) by apply lookup_insert_eq.
    rewrite (mle_reaches_strategy check_support_of leaf data xs e1 r false None
               check_support (<[r := e1]> h) Hcol Hr1);
      [| unfold e1; rewrite length_map; exact Hlen | exact Hsup | exact Hnan].
    rewrite Hcomplete, estimate_heap, Hr1. simpl default. split.
    + apply lookup_insert_eq.
    + intros a Ha. rewrite !lookup_insert_ne by congruence. reflexivity.
Qed.

End WeightsFacts.

(** *** A leaf, a batch and a weights tensor *)

(** The support the tests of the leaf state: the integers from 1 on, and
    NaN. *)
Definition support_of_geometric (leaf : Geometric) (x : fl) : bool :=
  match x with
  | None => true
  | Some q => Qle_bool 1 q && Pos.eqb (Qden (Qred q)) 1
  end.

Definition half : Geometric := {| scope_query := 0; p := Some (1 # 2) |}.

Definition rows (l : list fl) : list (list fl) := map (fun x => [x]) l.

Definition caller_heap (ws : list fl) : heap := {[ 4%nat := ws ]}.

(** C3 (code defect).  With a column of zeros (accepted when
    [check_support] is [False]) the denominator [sum(w * x)] is zero and
    the call raises [TypeError], with and without bias correction, where
    the floor [1e-8] should be stored: [set_params] would accept it. *)
Theorem zero_denominator_is_not_floored :
  let data := rows [Some 0%Q; Some 0%Q] in
  snd (maximum_likelihood_estimation support_of_geometric half data None
         true None false ∅) = Raise TypeError
  /\ snd (maximum_likelihood_estimation support_of_geometric half data None
            false None false ∅) = Raise TypeError
  /\ set_params half (Some tiny) = Ok {| scope_query := 0; p := Some tiny |}.
Proof.
  split; [| split]; vm_compute; reflexivity.
Qed.

Lemma geometric_estimate_is_clamped_ratio_witness :
  exists v : Q,
    snd (maximum_likelihood_estimation support_of_geometric half
           (rows [Some 1%Q; Some 2%Q]) (Some 4%nat) false None true
           (caller_heap [Some 1%Q; Some 3%Q]))
    = set_params half (Some v)
    /\ (v == 4 # 7)%Q.
Proof.
  assert (Hpos : Forall (fun w => (0 <= w)%Q) [1%Q; 3%Q])
    by (repeat constructor; discriminate).
  assert (Hsum : (0 < qsum [1%Q; 3%Q])%Q) by reflexivity.
  assert (Hsup : in_support support_of_geometric half true [Some 1%Q; Some 2%Q])
    by (intros _; repeat constructor).
  assert (HT : ~ (dot (map (fun w => (w / (qsum [1%Q; 3%Q] / 2))%Q) [1%Q; 3%Q])
                      [1%Q; 2%Q] == 0)%Q) by discriminate.
  destruct (geometric_estimate_is_clamped_ratio support_of_geometric half
              (rows [Some 1%Q; Some 2%Q]) [1%Q; 2%Q] [1%Q; 3%Q] 4 false true None
              (caller_heap [Some 1%Q; Some 3%Q]) eq_refl eq_refl eq_refl
              Hpos Hsum Hsup (or_introl eq_refl) HT)
    as (_ & _ & v & Hrun & _ & _ & _ & _ & Hother).
  exists v. split; [exact Hrun |].
  rewrite Hother; [reflexivity | |]; intros H; apply Qle_bool_iff in H;
    discriminate H.
Defined.

Lemma zero_denominator_raises_witness :
  snd (maximum_likelihood_estimation support_of_geometric half
         (rows [Some 0%Q; Some 0%Q]) (Some 4%nat) true None false
         (caller_heap [Some 1%Q; Some 3%Q]))
  = Raise TypeError.
Proof.
  apply (zero_denominator_raises support_of_geometric half
           (rows [Some 0%Q; Some 0%Q]) [0%Q; 0%Q] [1%Q; 3%Q]).
  - reflexivity.
  - reflexivity.
  - reflexivity.
  - discriminate.
  - intros H. discriminate H.
  - left. reflexivity.
  - reflexivity.
Defined.


Lemma weights_divided_in_place_unless_ignored_witness :
  fst (maximum_likelihood_estimation support_of_geometric half
         (rows [Some 1%Q; Some 2%Q]) (Some 4%nat) true None true
         (caller_heap [Some 1%Q; Some 3%Q])) !! 4%nat
  = Some (normalised [Some 1%Q; Some 3%Q] 2)
  /\ fst (em support_of_geometric half (rows [Some 1%Q; Some 2%Q]) true (Some 4%nat)
            (caller_heap [Some 1%Q; Some 3%Q])) !! 4%nat
     = Some (normalised (map (fun x => fdiv x (Some 4%Q)) [Some 1%Q; Some 3%Q]) 2).
Proof.
  assert (Hsup : in_support support_of_geometric half true [Some 1%Q; Some 2%Q])
    by (intros _; repeat constructor).
  pose proof (weights_divided_in_place_unless_ignored support_of_geometric half
                (rows [Some 1%Q; Some 2%Q]) [Some 1%Q; Some 2%Q]
                [Some 1%Q; Some 3%Q] 4 true true
                (caller_heap [Some 1%Q; Some 3%Q]) eq_refl eq_refl eq_refl Hsup eq_refl)
    as (Hnone & _ & _ & _ & _).
  pose proof (weights_divided_in_place_unless_ignored support_of_geometric half
                (rows [Some 1%Q; Some 2%Q]) [Some 1%Q; Some 2%Q]
                [Some 1%Q; Some 3%Q] 4 false true
                (caller_heap [Some 1%Q; Some 3%Q]) eq_refl eq_refl eq_refl Hsup eq_refl)
    as (_ & _ & _ & _ & Hem).
  split; [exact (proj1 (Hnone eq_refl)) | exact (proj1 (Hem eq_refl))].
Defined.

(** C10 (as stated, refuted).  On complete data no row is dropped, and
    with "ignore" the caller's weights [1, 3] are as before after the call:
    they sum to 4, not to the 2 rows. *)
Lemma ignore_leaves_caller_weights :
  drop_nan [Some 1%Q; Some 2%Q] (rows [Some 1%Q; Some 2%Q])
  = rows [Some 1%Q; Some 2%Q]
  /\ fst (maximum_likelihood_estimation support_of_geometric half
            (rows [Some 1%Q; Some 2%Q]) (Some 4%nat) true (Some (Str "ignore")) true
            (caller_heap [Some 1%Q; Some 3%Q])) !! 4%nat
     = Some [Some 1%Q; Some 3%Q]
  /\ fsum [Some 1%Q; Some 3%Q] = Some 4%Q
  /\ snd (maximum_likelihood_estimation support_of_geometric half
            (rows [Some 1%Q; Some 2%Q]) (Some 4%nat) true (Some (Str "ignore")) true
            (caller_heap [Some 1%Q; Some 3%Q]))
     = Ok {| scope_query := 0; p := Some (256 # 896) |}.
Proof.
  repeat split; vm_compute; reflexivity.
Qed.

(** *** Further properties of the estimation *)

Section CheckFacts.

Variable check_support_of : Geometric -> fl -> bool.

(** X14.  With caller-supplied weights, every [ValueError] of the checks
    (weights of the wrong length, a value outside the support, a column of
    NaN only, a NaN without a strategy, an unknown string, a strategy that
    is neither a string nor a callable) is raised before anything is
    written: the tensors are as they were. *)
Theorem check_errors_leave_tensors_untouched (leaf : Geometric)
    (data : list (list fl)) (xs ws : list fl) (r : nat)
    (bias_correction check_support : bool) (nan_strategy : option strategy)
    (h : heap) :
  column (scope_query leaf) data = Ok xs ->
  h !! r = Some ws ->
  length ws <> length data
  \/ (check_support = true /\ existsb (fun x => negb (check_support_of leaf x)) xs = true)
  \/ forallb isnan xs = true
  \/ (nan_strategy = None /\ existsb isnan xs = true)
  \/ (exists s, nan_strategy = Some (Str s) /\ String.eqb s "ignore" = false)
  \/ nan_strategy = Some Other ->
  maximum_likelihood_estimation check_support_of leaf data (Some r) bias_correction
                                nan_strategy check_support h
  = (h, Raise ValueError).
Proof.
  intros Hcol Hr Hbad.
  unfold maximum_likelihood_estimation. rewrite Hcol, Hr. simpl default.
  destruct (Nat.eqb (length ws) (length data)) eqn:Elen; simpl; [| reflexivity].
  apply Nat.eqb_eq in Elen.
  destruct (check_support && existsb (fun x => negb (check_support_of leaf x)) xs)
    eqn:Esup; [reflexivity |].
  rewrite forallb_mask, existsb_mask.
  destruct (forallb isnan xs) eqn:Eall; [reflexivity |].
  destruct Hbad as [H | [[Hc Hs] | [H | [[-> Hn] | [(s & -> & Hs) | ->]]]]].
  - contradiction.
  - rewrite Hc, Hs in Esup. discriminate.
  - discriminate.
  - rewrite Hn. reflexivity.
  - rewrite Hs. reflexivity.
  - reflexivity.
Qed.

End CheckFacts.

Lemma check_errors_leave_tensors_untouched_witness :
  maximum_likelihood_estimation support_of_geometric half
    (rows [Some 1%Q; Some 0%Q]) (Some 4%nat) true None true
    (caller_heap [Some 1%Q; Some 3%Q])
  = (caller_heap [Some 1%Q; Some 3%Q], Raise ValueError).
Proof.
  apply (check_errors_leave_tensors_untouched support_of_geometric half
           (rows [Some 1%Q; Some 0%Q]) [Some 1%Q; Some 0%Q] [Some 1%Q; Some 3%Q]).
  - reflexivity.
  - reflexivity.
  - right. left. split; reflexivity.
Defined.

(** The value handed to [set_params] is [1e-8], [1 - 1e-8], or a value
    that [torch.isclose] finds close neither to 0 nor to 1. *)
Lemma set_params_bounds (leaf leaf' : Geometric) (p0 : fl) :
  set_params leaf
    (if isclose p0 0 then Some tiny
     else if isclose p0 1 then Some (1 - tiny)%Q else p0) = Ok leaf' ->
  scope_query leaf' = scope_query leaf
  /\ exists v, p leaf' = Some v /\ (tiny <= v)%Q /\ (v <= 1 - tiny)%Q.
Proof.
  destruct (isclose p0 0) eqn:E0; [| destruct (isclose p0 1) eqn:E1].
  - simpl. intros H. injection H as <-. simpl. split; [reflexivity |].
    exists tiny. split; [reflexivity |]. split; apply Qle_bool_iff; reflexivity.
  - simpl. intros H. injection H as <-. simpl. split; [reflexivity |].
    exists (1 - tiny)%Q. split; [reflexivity |].
    split; apply Qle_bool_iff; reflexivity.
  - destruct p0 as [q|]; simpl; [| discriminate].
    destruct (negb (Qle_bool q 0) && Qle_bool q 1) eqn:Ev; [| discriminate].
    intros H. injection H as <-. simpl. split; [reflexivity |].
    exists q. split; [reflexivity |].
    apply andb_true_iff in Ev. destruct Ev as [Hpos Hle].
    apply negb_true_iff in Hpos.
    assert (Hq0 : (0 < q)%Q).
    { apply Qnot_le_lt. intros Hc. apply Qle_bool_iff in Hc. congruence. }
    apply Qle_bool_iff in Hle.
    unfold isclose in E0, E1.
    assert (H0 : ~ (Qabs (q - 0) <= atol + rtol * Qabs 0)%Q).
    { intros Hc. apply Qle_bool_iff in Hc. rewrite Hc in E0. discriminate. }
    assert (H1 : ~ (Qabs (q - 1) <= atol + rtol * Qabs 1)%Q).
    { intros Hc. apply Qle_bool_iff in Hc. rewrite Hc in E1. discriminate. }
    split.
    + apply Qlt_le_weak, Qnot_le_lt. intros Hc. apply H0.
      assert (E : (q - 0 == q)%Q) by ring.
      rewrite E, Qabs_pos by (apply Qlt_le_weak, Hq0).
      assert (E2 : (atol + rtol * Qabs 0 == tiny)%Q) by reflexivity.
      rewrite E2. exact Hc.
    + apply Qlt_le_weak, Qnot_le_lt. intros Hc. apply H1.
      assert (Hneg : (q - 1 <= 0)%Q).
      { apply (Qplus_le_l _ _ 1). ring_simplify. exact Hle. }
      rewrite (Qabs_neg _ Hneg).
      assert (E2 : (atol + rtol * Qabs 1 == atol + rtol)%Q) by reflexivity.
      rewrite E2.
      apply (Qplus_le_l _ _ (q - atol - rtol)). ring_simplify.
      apply Qle_trans with (1 - tiny)%Q; [| exact Hc].
      apply Qle_bool_iff. reflexivity.
Qed.

Lemma estimate_bounds (leaf leaf' : Geometric) (scope_data : list fl) (a : nat)
    (bias_correction : bool) (h : heap) :
  snd (estimate leaf scope_data a bias_correction h) = Ok leaf' ->
  scope_query leaf' = scope_query leaf
  /\ exists v, p leaf' = Some v /\ (tiny <= v)%Q /\ (v <= 1 - tiny)%Q.
Proof.
  unfold estimate. destruct (mul_columns _ scope_data) as [prod|e]; simpl;
    [| discriminate].
  destruct (is_zero (fsum prod)); simpl; [discriminate |].
  apply set_params_bounds.
Qed.

Section BoundFacts.

Variable check_support_of : Geometric -> fl -> bool.

(** X15.  Whenever [maximum_likelihood_estimation] returns, the success
    probability it has stored lies between [1e-8] and [1 - 1e-8]: the two
    edge cases move an estimate that is close to 0 or 1 inside, and
    [set_params] refuses what is outside of (0, 1]. *)
Theorem stored_probability_is_away_from_0_and_1 (leaf leaf' : Geometric)
    (data : list (list fl)) (weights : option nat)
    (bias_correction check_support : bool) (nan_strategy : option strategy)
    (h : heap) :
  snd (maximum_likelihood_estimation check_support_of leaf data weights
         bias_correction nan_strategy check_support h) = Ok leaf' ->
  scope_query leaf' = scope_query leaf
  /\ exists v, p leaf' = Some v /\ (tiny <= v)%Q /\ (v <= 1 - tiny)%Q.
Proof.
  intros H.
  destruct (column (scope_query leaf) data) as [xs|e] eqn:Hcol.
  - destruct (mle_raises_or_reaches check_support_of leaf data xs weights
                bias_correction nan_strategy check_support h Hcol)
      as [[e He] | (_ & a & h1 & Hrun)]; [congruence |].
    rewrite Hrun in H.
    destruct nan_strategy as [[s | f |] |].
    + destruct (String.eqb s "ignore"); [| discriminate].
      apply (estimate_bounds _ _ _ _ _ _ H).
    + apply (estimate_bounds _ _ _ _ _ _ H).
    + discriminate.
    + destruct (existsb isnan xs); [discriminate |].
      apply (estimate_bounds _ _ _ _ _ _ H).
  - unfold maximum_likelihood_estimation in H. rewrite Hcol in H. discriminate.
Qed.

End BoundFacts.

Lemma stored_probability_is_away_from_0_and_1_witness :
  exists v, (tiny <= v)%Q /\ (v <= 1 - tiny)%Q
            /\ snd (maximum_likelihood_estimation support_of_geometric half
                      (rows [Some 1%Q; Some 1%Q]) None false None true ∅)
               = Ok {| scope_query := 0; p := Some v |}.
Proof.
  destruct (stored_probability_is_away_from_0_and_1 support_of_geometric half
              {| scope_query := 0; p := Some (1 - tiny)%Q |}
              (rows [Some 1%Q; Some 1%Q]) None false true None ∅)
    as (_ & v & Hv & Hlo & Hhi).
  - vm_compute. reflexivity.
  - simpl in Hv. injection Hv as <-.
    exists (1 - tiny)%Q. split; [exact Hlo |]. split; [exact Hhi |].
    vm_compute. reflexivity.
Defined.

(** *** Omitted weights *)

Section WeightsValueFacts.

Variable check_support_of : Geometric -> fl -> bool.

(** The result depends on the weights tensor through its values only. *)
Lemma mle_result_lookup (leaf : Geometric) (data : list (list fl)) (r1 r2 : nat)
    (bias_correction check_support : bool) (nan_strategy : option strategy)
    (h1 h2 : heap) :
  h1 !! r1 = h2 !! r2 ->
  snd (maximum_likelihood_estimation check_support_of leaf data (Some r1)
         bias_correction nan_strategy check_support h1)
  = snd (maximum_likelihood_estimation check_support_of leaf data (Some r2)
           bias_correction nan_strategy check_support h2).
Proof.
  intros H. unfold maximum_likelihood_estimation.
  destruct (column (scope_query leaf) data) as [xs|e]; [| reflexivity].
  rewrite H.
  destruct (negb (Nat.eqb (length (default [] (h2 !! r2))) (length data)));
    [reflexivity |].
  destruct (check_support && existsb (fun x => negb (check_support_of leaf x)) xs);
    [reflexivity |].
  destruct (forallb (fun b : bool => b) (map isnan xs)); [reflexivity |].
  destruct nan_strategy as [[s | f |] |]; try reflexivity.
  - destruct (String.eqb s "ignore"); [| reflexivity]. unfold alloc.
    apply estimate_result_lookup. rewrite !lookup_insert_eq. reflexivity.
  - apply estimate_result_lookup, H.
  - destruct (existsb (fun b : bool => b) (map isnan xs)); [reflexivity |].
    apply estimate_result_lookup, H.
Qed.

(** A call with caller-supplied weights writes to the weights tensor and
    to a newly allocated one at most. *)
Lemma mle_heap_frame (leaf : Geometric) (data : list (list fl)) (r a : nat)
    (bias_correction check_support : bool) (nan_strategy : option strategy)
    (h : heap) :
  a <> r -> a <> fresh (dom h) ->
  fst (maximum_likelihood_estimation check_support_of leaf data (Some r)
         bias_correction nan_strategy check_support h) !! a
  = h !! a.
Proof.
  intros Har Hfresh. unfold maximum_likelihood_estimation.
  destruct (column (scope_query leaf) data) as [xs|e]; [| reflexivity].
  destruct (negb (Nat.eqb (length (default [] (h !! r))) (length data)));
    [reflexivity |].
  destruct (check_support && existsb (fun x => negb (check_support_of leaf x)) xs);
    [reflexivity |].
  destruct (forallb (fun b : bool => b) (map isnan xs)); [reflexivity |].
  destruct nan_strategy as [[s | f |] |]; try reflexivity.
  - destruct (String.eqb s "ignore"); [| reflexivity]. unfold alloc.
    rewrite estimate_heap, !lookup_insert_ne by congruence. reflexivity.
  - rewrite estimate_heap, lookup_insert_ne by congruence. reflexivity.
  - destruct (existsb (fun b : bool => b) (map isnan xs)); [reflexivity |].
    rewrite estimate_heap, lookup_insert_ne by congruence. reflexivity.
Qed.

(** X16.  Leaving [weights] out is the same as passing a tensor of ones
    with one entry per row of the data: the result is the same, whatever
    the other arguments are, and the call writes to none of the tensors
    that exist when it is made. *)
Theorem omitted_weights_are_ones (leaf : Geometric) (data : list (list fl))
    (r : nat) (bias_correction check_support : bool)
    (nan_strategy : option strategy) (h h' : heap) :
  h' !! r = Some (repeat (Some 1%Q) (length data)) ->
  snd (maximum_likelihood_estimation check_support_of leaf data None
         bias_correction nan_strategy check_support h)
  = snd (maximum_likelihood_estimation check_support_of leaf data (Some r)
           bias_correction nan_strategy check_support h')
  /\ forall a : nat, is_Some (h !! a) ->
       fst (maximum_likelihood_estimation check_support_of leaf data None
              bias_correction nan_strategy check_support h) !! a
       = h !! a.
Proof.
  intros Hr.
  set (ones := repeat (Some 1%Q) (length data)) in *.
  destruct (column (scope_query leaf) data) as [xs|e] eqn:Hcol.
  - assert (Hnone : maximum_likelihood_estimation check_support_of leaf data None
                      bias_correction nan_strategy check_support h
                    = maximum_likelihood_estimation check_support_of leaf data
                        (Some (fresh (dom h))) bias_correction nan_strategy
                        check_support (<[fresh (dom h) := ones]> h)).
    { unfold maximum_likelihood_estimation. rewrite Hcol. reflexivity. }
    rewrite Hnone. split.
    + apply mle_result_lookup. rewrite lookup_insert_eq, Hr. reflexivity.
    + intros a Ha.
      assert (Hdom : a ∈ dom h) by (apply elem_of_dom; exact Ha).
      assert (Hne : a <> fresh (dom h)).
      { intros ->. exact (is_fresh (dom h) Hdom). }
      rewrite mle_heap_frame.
      * apply lookup_insert_ne. congruence.
      * exact Hne.
      * intros E.
        apply (is_fresh (dom (<[fresh (dom h) := ones]> h))).
        rewrite <- E, dom_insert_L. apply elem_of_union. right. exact Hdom.
  - unfold maximum_likelihood_estimation. rewrite Hcol. split; reflexivity.
Qed.

End WeightsValueFacts.

Lemma omitted_weights_are_ones_witness :
  snd (maximum_likelihood_estimation support_of_geometric half
         (rows [Some 1%Q; Some 3%Q]) None true None true
         (caller_heap [Some 5%Q]))
  = snd (maximum_likelihood_estimation support_of_geometric half
           (rows [Some 1%Q; Some 3%Q]) (Some 4%nat) true None true
           (caller_heap [Some 1%Q; Some 1%Q]))
  /\ fst (maximum_likelihood_estimation support_of_geometric half
            (rows [Some 1%Q; Some 3%Q]) None true None true
            (caller_heap [Some 5%Q])) !! 4%nat
     = Some [Some 5%Q].
Proof.
  destruct (omitted_weights_are_ones support_of_geometric half
              (rows [Some 1%Q; Some 3%Q]) 4%nat true true None
              (caller_heap [Some 5%Q]) (caller_heap [Some 1%Q; Some 1%Q]))
    as [Hres Hframe].
  - reflexivity.
  - split; [exact Hres |].
    rewrite (Hframe 4%nat) by (exists [Some 5%Q]; reflexivity).
    reflexivity.
Defined.

(** *** Relative weights *)

(** Two results that are the same up to the representation of the
    probability as a fraction. *)
Definition same_estimate (r1 r2 : result Geometric) : Prop :=
  match r1, r2 with
  | Ok l1, Ok l2 =>
      scope_query l1 = scope_query l2
      /\ match p l1, p l2 with
         | Some v1, Some v2 => (v1 == v2)%Q
         | None, None => True
         | _, _ => False
         end
  | Raise e1, Raise e2 => e1 = e2
  | _, _ => False
  end.

Lemma qsum_Qeq (l l' : list Q) : Forall2 Qeq l l' -> (qsum l == qsum l')%Q.
Proof.
  induction 1 as [|x y l l' Hxy _ IH]; [reflexivity |].
  rewrite !qsum_cons, Hxy, IH. reflexivity.
Qed.

Lemma qsum_scaled (c : Q) (ws ws' : list Q) :
  Forall2 (fun w w' => (w' == c * w)%Q) ws ws' -> (qsum ws' == c * qsum ws)%Q.
Proof.
  induction 1 as [|x y l l' Hxy _ IH].
  - unfold qsum. simpl. ring.
  - rewrite !qsum_cons, Hxy, IH. ring.
Qed.

Lemma scaled_divided (c d d' : Q) (ws ws' : list Q) :
  ~ (c == 0)%Q -> ~ (d == 0)%Q -> (d' == c * d)%Q ->
  Forall2 (fun w w' => (w' == c * w)%Q) ws ws' ->
  Forall2 Qeq (map (fun w => (w / d)%Q) ws) (map (fun w => (w / d')%Q) ws').
Proof.
  intros Hc Hd Hd'. induction 1 as [|x y l l' Hxy _ IH]; simpl; constructor.
  - rewrite Hxy, Hd'. field. split; assumption.
  - exact IH.
Qed.

Lemma dot_cons (w q : Q) (ws qs : list Q) :
  (dot (w :: ws) (q :: qs) == w * q + dot ws qs)%Q.
Proof. unfold dot. simpl. apply qsum_cons. Qed.

Lemma dot_Qeq (ws ws' : list Q) :
  Forall2 Qeq ws ws' -> forall qs, (dot ws qs == dot ws' qs)%Q.
Proof.
  induction 1 as [|x y l l' Hxy _ IH]; intros qs; [reflexivity |].
  destruct qs as [|q qs]; [reflexivity |].
  rewrite !dot_cons, Hxy, IH. reflexivity.
Qed.

Lemma clamped_Qeq (e e' : Q) : (e == e')%Q -> (clamped e == clamped e')%Q.
Proof.
  intros He. unfold clamped.
  assert (H0 : Qle_bool (Qabs (e - 0)) (atol + rtol * Qabs 0)
               = Qle_bool (Qabs (e' - 0)) (atol + rtol * Qabs 0))
    by (rewrite He; reflexivity).
  assert (H1 : Qle_bool (Qabs (e - 1)) (atol + rtol * Qabs 1)
               = Qle_bool (Qabs (e' - 1)) (atol + rtol * Qabs 1))
    by (rewrite He; reflexivity).
  rewrite H0, H1.
  destruct (Qle_bool (Qabs (e' - 0)) (atol + rtol * Qabs 0)); [reflexivity |].
  destruct (Qle_bool (Qabs (e' - 1)) (atol + rtol * Qabs 1)); [reflexivity |].
  exact He.
Qed.

Lemma set_params_Qeq (leaf : Geometric) (v v' : Q) :
  (v == v')%Q -> same_estimate (set_params leaf (Some v)) (set_params leaf (Some v')).
Proof.
  intros Hv. unfold set_params.
  assert (H : negb (Qle_bool v 0) && Qle_bool v 1
              = negb (Qle_bool v' 0) && Qle_bool v' 1)
    by (rewrite Hv; reflexivity).
  rewrite H. destruct (negb (Qle_bool v' 0) && Qle_bool v' 1); simpl.
  - split; [reflexivity | exact Hv].
  - reflexivity.
Qed.

Section RelativeWeights.

Variable check_support_of : Geometric -> fl -> bool.

(** The call on complete finite data with finite weights of non-zero sum
    and no strategy. *)
Lemma mle_finite (leaf : Geometric) (data : list (list fl)) (qs ws : list Q)
    (r : nat) (bias_correction check_support : bool) (h : heap) :
  column (scope_query leaf) data = Ok (map Some qs) ->
  h !! r = Some (map Some ws) ->
  length ws = length data ->
  ~ (qsum ws == 0)%Q ->
  qs <> [] ->
  in_support check_support_of leaf check_support (map Some qs) ->
  let n := inject_Z (Z.of_nat (length qs)) in
  let W := map (fun w => (w / (qsum ws / n))%Q) ws in
  let N := if bias_correction then (qsum W - 1)%Q else qsum W in
  let T := dot W qs in
  maximum_likelihood_estimation check_support_of leaf data (Some r)
    bias_correction None check_support h
  = (<[r := map Some W]> h,
     if Qeq_bool T 0 then Raise TypeError
     else set_params leaf (Some (clamped (N / T)%Q))).
Proof.
  intros Hcol Hr Hlen Hs0 Hne Hsup n W N T.
  pose proof (column_length _ _ _ Hcol) as Hqs. rewrite length_map in Hqs.
  assert (Hall : forallb isnan (map Some qs) = false)
    by (apply forallb_isnan_finite, Hne).
  rewrite (mle_reaches_strategy check_support_of leaf data (map Some qs)
             (map Some ws) r bias_correction None check_support h
             Hcol Hr) by (try rewrite length_map; assumption).
  rewrite existsb_isnan_finite.
  assert (Hlen' : length ws = length qs) by congruence.
  apply (estimate_finite leaf qs ws r bias_correction h Hr Hlen' Hne Hs0).
Qed.

(** Weights that differ by a factor give the same result. *)
Lemma mle_scaled_weights (leaf : Geometric) (data : list (list fl))
    (qs ws ws' : list Q) (c : Q) (r r' : nat)
    (bias_correction check_support : bool) (h h' : heap) :
  column (scope_query leaf) data = Ok (map Some qs) ->
  h !! r = Some (map Some ws) ->
  h' !! r' = Some (map Some ws') ->
  Forall2 (fun w w' => (w' == c * w)%Q) ws ws' ->
  ~ (c == 0)%Q ->
  length ws = length data ->
  ~ (qsum ws == 0)%Q ->
  in_support check_support_of leaf check_support (map Some qs) ->
  same_estimate
    (snd (maximum_likelihood_estimation check_support_of leaf data (Some r)
            bias_correction None check_support h))
    (snd (maximum_likelihood_estimation check_support_of leaf data (Some r')
            bias_correction None check_support h')).
Proof.
  intros Hcol Hr Hr' Hsc Hc Hlen Hs0 Hsup.
  pose proof (column_length _ _ _ Hcol) as Hqs. rewrite length_map in Hqs.
  assert (Hne : qs <> []).
  { intros ->. destruct ws; [| simpl in *; lia]. apply Hs0. reflexivity. }
  pose proof (qsum_scaled c ws ws' Hsc) as HS.
  assert (Hs0' : ~ (qsum ws' == 0)%Q).
  { rewrite HS. intros E. apply Qmult_integral in E. tauto. }
  assert (Hlen' : length ws' = length data).
  { rewrite <- Hlen. symmetry. apply (Forall2_length _ _ _ Hsc). }
  rewrite (mle_finite leaf data qs ws r bias_correction check_support h
             Hcol Hr Hlen Hs0 Hne Hsup).
  rewrite (mle_finite leaf data qs ws' r' bias_correction check_support h'
             Hcol Hr' Hlen' Hs0' Hne Hsup).
  cbv zeta. simpl snd.
  set (n := inject_Z (Z.of_nat (length qs))).
  assert (Hn : ~ (n == 0)%Q).
  { intros E. pose proof (inject_length_pos qs Hne) as Hpos.
    fold n in Hpos. rewrite E in Hpos. discriminate. }
  set (W := map (fun w => (w / (qsum ws / n))%Q) ws).
  set (W' := map (fun w => (w / (qsum ws' / n))%Q) ws').
  assert (HW : Forall2 Qeq W W').
  { apply (scaled_divided c); [exact Hc | | | exact Hsc].
    - intros E. apply Hs0.
      assert (Hq : (qsum ws == qsum ws / n * n)%Q) by (field; exact Hn).
      rewrite Hq, E. ring.
    - rewrite HS. field. exact Hn. }
  pose proof (qsum_Qeq _ _ HW) as HN.
  pose proof (dot_Qeq _ _ HW qs) as HT.
  assert (HT0 : Qeq_bool (dot W qs) 0 = Qeq_bool (dot W' qs) 0)
    by (rewrite HT; reflexivity).
  rewrite HT0. destruct (Qeq_bool (dot W' qs) 0) eqn:E; [reflexivity |].
  apply set_params_Qeq, clamped_Qeq.
  destruct bias_correction; rewrite HN, HT; reflexivity.
Qed.

(** X17.  In exact arithmetic only the relative weights matter: on
    complete data, without a strategy, weights that are a non-zero multiple
    of other weights give the same result, since both are divided by their
    sum over the number of rows first. *)
Theorem only_relative_weights_matter (leaf : Geometric) (data : list (list fl))
    (qs ws ws' : list Q) (c : Q) (r r' : nat)
    (bias_correction check_support : bool) (h h' : heap) :
  column (scope_query leaf) data = Ok (map Some qs) ->
  h !! r = Some (map Some ws) ->
  h' !! r' = Some (map Some ws') ->
  Forall2 (fun w w' => (w' == c * w)%Q) ws ws' ->
  ~ (c == 0)%Q ->
  length ws = length data ->
  ~ (qsum ws == 0)%Q ->
  in_support check_support_of leaf check_support (map Some qs) ->
  same_estimate
    (snd (maximum_likelihood_estimation check_support_of leaf data (Some r)
            bias_correction None check_support h))
    (snd (maximum_likelihood_estimation check_support_of leaf data (Some r')
            bias_correction None check_support h')).
Proof. apply mle_scaled_weights. Qed.

End RelativeWeights.

Lemma only_relative_weights_matter_witness :
  same_estimate
    (snd (maximum_likelihood_estimation support_of_geometric half
            (rows [Some 1%Q; Some 3%Q]) (Some 4%nat) true None true
            (caller_heap [Some 1%Q; Some 2%Q])))
    (snd (maximum_likelihood_estimation support_of_geometric half
            (rows [Some 1%Q; Some 3%Q]) (Some 4%nat) true None true
            (caller_heap [Some 3%Q; Some 6%Q]))).
Proof.
  apply (only_relative_weights_matter support_of_geometric half
           (rows [Some 1%Q; Some 3%Q]) [1%Q; 3%Q] [1%Q; 2%Q] [3%Q; 6%Q] 3%Q).
  - reflexivity.
  - reflexivity.
  - reflexivity.
  - repeat constructor.
  - discriminate.
  - reflexivity.
  - discriminate.
  - intros _. repeat constructor.
Defined.

(** *** Edge cases of the estimate *)

Lemma dot_ones (qs : list Q) :
  Forall (fun q => (q == 1)%Q) qs ->
  forall ws, length ws = length qs -> (dot ws qs == qsum ws)%Q.
Proof.
  induction 1 as [|q qs Hq _ IH]; intros [|w ws] Hlen; simpl in Hlen;
    try discriminate; [reflexivity |].
  rewrite dot_cons, qsum_cons, Hq, IH by congruence. ring.
Qed.

Section EdgeFacts.

Variable check_support_of : Geometric -> fl -> bool.

(** X18.  Data made of ones only, the smallest number of trials, would
    give the estimate 1; without bias correction [set_params] is called
    with [1 - 1e-8], for any finite weights of non-zero sum. *)
Theorem all_ones_data_gives_largest_probability (leaf : Geometric)
    (data : list (list fl)) (qs ws : list Q) (r : nat) (check_support : bool)
    (h : heap) :
  column (scope_query leaf) data = Ok (map Some qs) ->
  Forall (fun q => (q == 1)%Q) qs ->
  h !! r = Some (map Some ws) ->
  length ws = length data ->
  ~ (qsum ws == 0)%Q ->
  in_support check_support_of leaf check_support (map Some qs) ->
  snd (maximum_likelihood_estimation check_support_of leaf data (Some r)
         false None check_support h)
  = set_params leaf (Some (1 - tiny)%Q).
Proof.
  intros Hcol Hones Hr Hlen Hs0 Hsup.
  pose proof (column_length _ _ _ Hcol) as Hqs. rewrite length_map in Hqs.
  assert (Hne : qs <> []).
  { intros ->. destruct ws; [| simpl in *; lia]. apply Hs0. reflexivity. }
  rewrite (mle_finite check_support_of leaf data qs ws r false check_support h
             Hcol Hr Hlen Hs0 Hne Hsup).
  cbv zeta. simpl snd.
  set (n := inject_Z (Z.of_nat (length qs))).
  assert (Hn : ~ (n == 0)%Q).
  { intros E. pose proof (inject_length_pos qs Hne) as Hpos.
    fold n in Hpos. rewrite E in Hpos. discriminate. }
  set (W := map (fun w => (w / (qsum ws / n))%Q) ws).
  assert (HW : (qsum W == n)%Q) by (apply normalised_sum; assumption).
  assert (HT : (dot W qs == n)%Q).
  { rewrite (dot_ones qs Hones W); [exact HW |].
    unfold W. rewrite length_map. congruence. }
  rewrite (Qeq_bool_false _ (fun E => Hn (Qeq_trans _ _ _ (Qeq_sym _ _ HT) E))).
  assert (He : (qsum W / dot W qs == 1)%Q).
  { rewrite HW, HT. field. exact Hn. }
  destruct (clamped_cases _ _ He) as (_ & Hone & _).
  rewrite Hone.
  - reflexivity.
  - intros H1. apply Qle_bool_iff in H1. discriminate H1.
  - apply Qle_bool_iff. reflexivity.
Qed.

(** X19.  With bias correction, on a batch of a single row whose value
    is not zero, [set_params] is called with [1e-8], whatever the value and
    the non-zero weight are: the corrected number of instances is zero. *)
Theorem single_row_with_bias_correction_gives_smallest_probability
    (leaf : Geometric) (row : list fl) (x w : Q) (r : nat)
    (check_support : bool) (h : heap) :
  column (scope_query leaf) [row] = Ok [Some x] ->
  h !! r = Some [Some w] ->
  ~ (w == 0)%Q ->
  ~ (x == 0)%Q ->
  in_support check_support_of leaf check_support [Some x] ->
  snd (maximum_likelihood_estimation check_support_of leaf [row] (Some r)
         true None check_support h)
  = set_params leaf (Some tiny).
Proof.
  intros Hcol Hr Hw Hx Hsup.
  assert (Hs0 : ~ (qsum [w] == 0)%Q).
  { intros E. apply Hw. rewrite <- E. unfold qsum. simpl. ring. }
  assert (Hne : [x] <> []) by discriminate.
  rewrite (mle_finite check_support_of leaf [row] [x] [w] r true check_support h
             Hcol Hr eq_refl Hs0 Hne Hsup).
  cbv zeta. simpl snd.
  set (n := inject_Z (Z.of_nat (length [x]))).
  assert (Hn : ~ (n == 0)%Q) by discriminate.
  set (W := [(w / (qsum [w] / inject_Z (Z.of_nat 1)))%Q]).
  assert (HW : (qsum W == n)%Q) by exact (normalised_sum [w] n Hs0 Hn).
  assert (Hzero : forall e : Q, (Qabs e <= atol)%Q ->
            set_params leaf (Some (clamped e)) = set_params leaf (Some tiny)).
  { intros e He. destruct (clamped_cases e e (Qeq_refl e)) as (Hz & _ & _).
    rewrite (Hz He). reflexivity. }
  assert (Hdot : (dot W [x] == qsum W * x)%Q).
  { unfold dot, qsum. simpl. ring. }
  destruct (Qeq_bool (dot W [x]) 0) eqn:ET.
  - exfalso. apply Qeq_bool_iff in ET. rewrite Hdot, HW in ET.
    apply Qmult_integral in ET. destruct ET as [E | E]; [exact (Hn E) | exact (Hx E)].
  - apply Hzero.
    assert (E : ((qsum W - 1) / dot W [x] == 0)%Q).
    { rewrite HW. unfold n. simpl. unfold Qdiv.
      assert (E1 : (inject_Z 1 - 1 == 0)%Q) by reflexivity.
      rewrite E1. ring. }
    rewrite E. apply Qle_bool_iff. reflexivity.
Qed.

End EdgeFacts.

Lemma all_ones_data_gives_largest_probability_witness :
  snd (maximum_likelihood_estimation support_of_geometric half
         (rows [Some 1%Q; Some 1%Q]) (Some 4%nat) false None true
         (caller_heap [Some 2%Q; Some 5%Q]))
  = Ok {| scope_query := 0; p := Some (1 - tiny)%Q |}.
Proof.
  apply (all_ones_data_gives_largest_probability support_of_geometric half
           (rows [Some 1%Q; Some 1%Q]) [1%Q; 1%Q] [2%Q; 5%Q]).
  - reflexivity.
  - repeat constructor.
  - reflexivity.
  - reflexivity.
  - discriminate.
  - intros _. repeat constructor.
Defined.

Lemma single_row_with_bias_correction_gives_smallest_probability_witness :
  snd (maximum_likelihood_estimation support_of_geometric half
         [[Some 3%Q]] (Some 4%nat) true None true (caller_heap [Some 2%Q]))
  = Ok {| scope_query := 0; p := Some tiny |}.
Proof.
  apply (single_row_with_bias_correction_gives_smallest_probability
           support_of_geometric half [Some 3%Q] 3%Q 2%Q).
  - reflexivity.
  - reflexivity.
  - discriminate.
  - discriminate.
  - intros _. repeat constructor.
Defined.

(** *** The EM step *)

Section EMFacts.

Variable check_support_of : Geometric -> fl -> bool.

(** X20.  On complete data, with finite cached gradients of non-zero sum
    and one entry per row, the EM step gives the result of the
    maximum-likelihood estimation that takes the gradients as weights,
    without bias correction; the gradient tensor of the cache is divided
    in place twice, by its sum and by the estimation, and sums to the
    number of rows afterwards. *)
Theorem em_is_estimation_weighted_by_gradients (leaf : Geometric)
    (data : list (list fl)) (qs gs : list Q) (g : nat) (check_support : bool)
    (h : heap) :
  column (scope_query leaf) data = Ok (map Some qs) ->
  h !! g = Some (map Some gs) ->
  length gs = length data ->
  ~ (qsum gs == 0)%Q ->
  in_support check_support_of leaf check_support (map Some qs) ->
  same_estimate
    (snd (maximum_likelihood_estimation check_support_of leaf data (Some g)
            false None check_support h))
    (snd (em check_support_of leaf data check_support (Some g) h))
  /\ exists G : list Q,
       fst (em check_support_of leaf data check_support (Some g) h) !! g
       = Some (map Some G)
       /\ (qsum G == inject_Z (Z.of_nat (length data)))%Q.
Proof.
  intros Hcol Hg Hlen Hs0 Hsup.
  pose proof (column_length _ _ _ Hcol) as Hqs. rewrite length_map in Hqs.
  assert (Hne : qs <> []).
  { intros ->. destruct gs; [| simpl in *; lia]. apply Hs0. reflexivity. }
  set (gs' := map (fun w => (w / qsum gs)%Q) gs).
  assert (Hem : em check_support_of leaf data check_support (Some g) h
                = maximum_likelihood_estimation check_support_of leaf data (Some g)
                    false None check_support (<[g := map Some gs']> h)).
  { unfold em. rewrite Hg. simpl default.
    rewrite fsum_finite, (map_fdiv_finite _ _ Hs0). reflexivity. }
  rewrite Hem.
  assert (Hg' : <[g := map Some gs']> h !! g = Some (map Some gs'))
    by apply lookup_insert_eq.
  assert (Hsum' : (qsum gs' == 1)%Q).
  { unfold gs'. rewrite qsum_div. field. exact Hs0. }
  assert (Hs0' : ~ (qsum gs' == 0)%Q).
  { rewrite Hsum'. discriminate. }
  assert (Hlen' : length gs' = length data).
  { unfold gs'. rewrite length_map. exact Hlen. }
  split.
  - apply (mle_scaled_weights check_support_of leaf data qs gs gs' (/ qsum gs)%Q
             g g false check_support h _ Hcol Hg Hg'); try assumption.
    + unfold gs'. generalize (qsum gs). intros S. clear.
      induction gs as [|x l IH]; simpl; constructor.
      * unfold Qdiv. ring.
      * exact IH.
    + intros E. apply Hs0.
      assert (Hq : (qsum gs == / / qsum gs)%Q) by (symmetry; apply Qinv_involutive).
      rewrite Hq, E. reflexivity.
  - rewrite (mle_finite check_support_of leaf data qs gs' g false check_support _
               Hcol Hg' Hlen' Hs0' Hne Hsup).
    cbv zeta. simpl fst. rewrite lookup_insert_eq.
    eexists. split; [reflexivity |].
    rewrite <- Hqs. apply normalised_sum; [exact Hs0' |].
    intros E. pose proof (inject_length_pos qs Hne) as Hpos.
    rewrite E in Hpos. discriminate.
Qed.

End EMFacts.

Lemma em_is_estimation_weighted_by_gradients_witness :
  same_estimate
    (snd (maximum_likelihood_estimation support_of_geometric half
            (rows [Some 1%Q; Some 3%Q]) (Some 4%nat) false None true
            (caller_heap [Some 2%Q; Some 6%Q])))
    (snd (em support_of_geometric half (rows [Some 1%Q; Some 3%Q]) true
            (Some 4%nat) (caller_heap [Some 2%Q; Some 6%Q])))
  /\ exists G : list Q,
       fst (em support_of_geometric half (rows [Some 1%Q; Some 3%Q]) true
              (Some 4%nat) (caller_heap [Some 2%Q; Some 6%Q])) !! 4%nat
       = Some (map Some G)
       /\ (qsum G == 2)%Q.
Proof.
  apply (em_is_estimation_weighted_by_gradients support_of_geometric half
           (rows [Some 1%Q; Some 3%Q]) [1%Q; 3%Q] [2%Q; 6%Q]).
  - reflexivity.
  - reflexivity.
  - reflexivity.
  - discriminate.
  - intros _. repeat constructor.
Defined.

End GeometricLearning.

(** ** spflow/tensorly/structure/general/layers/leaves/parametric/hypergeometric.py *)

Module HypergeometricLayers.

(** [Scope(query, evidence)]. *)
Record Scope : Type := {
  query : list nat;
  evidence : list nat
}.

(** A [Hypergeometric] leaf node: its scope and its three parameters. *)
Record Hypergeometric : Type := {
  scope : Scope;
  N : Z;
  M : Z;
  n : Z
}.

(** A [HypergeometricLayer]. *)
Record HypergeometricLayer : Type := {
  _n_out : nat;
  nodes : list Hypergeometric;
  scopes_out : list Scope
}.

(** What [marginalize] returns a reference to. *)
Inductive module : Type :=
| Node (node : Hypergeometric)
| Layer (layer : HypergeometricLayer).

(** The module objects, by address. *)
Abbreviation heap := (gmap nat module).

(** Modelled from the spec: the checks of the node class
    [Hypergeometric], of the structure module that is not among the
    sources.  "Hypergeometric: 0 <= M <= N, 0 <= n <= N, integers"; a
    univariate leaf has one query variable and no evidence. *)
Definition valid_scope (s : Scope) : bool :=
  Nat.eqb (length (query s)) 1 && Nat.eqb (length (evidence s)) 0.

Definition valid_params (N M n : Z) : bool :=
  ((0 <=? N) && (0 <=? M) && (M <=? N) && (0 <=? n) && (n <=? N))%Z.

(** [node.set_params(N, M, n)]. *)
Definition node_set_params (node : Hypergeometric) (N M n : Z) : result Hypergeometric :=
  if valid_params N M n
  then Ok {| scope := scope node; N := N; M := M; n := n |}
  else Raise ValueError.

(** [Hypergeometric(scope, N, M, n)]. *)
Definition new_Hypergeometric (s : Scope) (N M n : Z) : result Hypergeometric :=
  if valid_scope s
  then node_set_params {| scope := s; N := 1; M := 1; n := 1 |} N M n
  else Raise ValueError.

(** Modelled from the spec: [marginalize] on a leaf node (not among the
    sources).  A scope fully contained in the removed set gives an absent
    result, a scope disjoint from it gives the node itself. *)
Definition marginalize_node (node : Hypergeometric) (marg_rvs : list nat) :
  option Hypergeometric :=
  if forallb (fun rv => existsb (Nat.eqb rv) marg_rvs) (query (scope node))
  then None
  else Some node.

(** An argument [Union[int, List[int], tensor]]: one integer for all
    nodes, or one per node. *)
Inductive param : Type :=
| Int (z : Z)
| Ints (l : list Z).

(** An argument [Union[Scope, List[Scope]]]. *)
Inductive scopes : Type :=
| OneScope (s : Scope)
| Scopes (l : list Scope).

Fixpoint mapM {A B : Type} (f : A -> result B) (l : list A) : result (list B) :=
  match l with
  | [] => Ok []
  | a :: l' => do b <- f a; do bs <- mapM f l'; Ok (b :: bs)
  end.

(** The values of a parameter as a one-dimensional tensor of [n_out]
    entries, or the error on a wrong length. *)
Definition as_tensor (n_out : nat) (v : param) : result (list Z) :=
  let t := match v with
           | Int z => repeat z n_out
           | Ints l => l
           end in
  if Nat.eqb (length t) n_out then Ok t else Raise ValueError.

(** [values[node_scopes == node_scope]]. *)
Fixpoint select (node_scope : nat) (node_scopes : list nat) (values : list Z) : list Z :=
  match node_scopes, values with
  | k :: ks, v :: vs =>
      if Nat.eqb k node_scope then v :: select node_scope ks vs
      else select node_scope ks vs
  | _, _ => []
  end.

(** [tl.all(values == values[0])]. *)
Definition all_equal_first (values : list Z) : bool :=
  match values with
  | [] => true
  | v :: _ => forallb (Z.eqb v) values
  end.

(** The loop [for node_scope in tl_unique(node_scopes)] passes for one
    parameter (a scope met twice is checked twice, to the same effect). *)
Definition same_per_scope (node_scopes : list nat) (values : list Z) : bool :=
  forallb (fun node_scope => all_equal_first (select node_scope node_scopes values))
          node_scopes.

(** [zip(N, M, n, self.nodes)] with [node.set_params] on each. *)
Fixpoint set_all (Ns Ms ns : list Z) (nodes : list Hypergeometric) :
  result (list Hypergeometric) :=
  match Ns, Ms, ns, nodes with
  | N :: Ns', M :: Ms', n :: ns', node :: nodes' =>
      do node' <- node_set_params node N M n;
      do rest <- set_all Ns' Ms' ns' nodes';
      Ok (node' :: rest)
  | _, _, _, _ => Ok []
  end.

(** [s.query[0]]. *)
Definition first_query (s : Scope) : result nat :=
  match query s with
  | rv :: _ => Ok rv
  | [] => Raise IndexError
  end.

(** [HypergeometricLayer.set_params(N, M, n)]. *)
Definition set_params (self : HypergeometricLayer) (N M n : param) :
  result HypergeometricLayer :=
  do Ns <- as_tensor (_n_out self) N;
  do Ms <- as_tensor (_n_out self) M;
  do ns <- as_tensor (_n_out self) n;
  do node_scopes <- mapM first_query (scopes_out self);
  if negb (same_per_scope node_scopes Ns && same_per_scope node_scopes Ms
           && same_per_scope node_scopes ns)
  then Raise ValueError
  else
    do nodes' <- set_all Ns Ms ns (nodes self);
    Ok {| _n_out := _n_out self; nodes := nodes'; scopes_out := scopes_out self |}.

(** [HypergeometricLayer(scope, N, M, n, n_nodes)]. *)
Definition new_HypergeometricLayer (scope : scopes) (N M n : param) (n_nodes : Z) :
  result HypergeometricLayer :=
  do scope_list <-
    match scope with
    | OneScope s =>
        if (n_nodes <? 1)%Z then Raise ValueError
        else Ok (repeat s (Z.to_nat n_nodes))
    | Scopes l =>
        if Nat.eqb (length l) 0 then Raise ValueError else Ok l
    end;
  do leaves <- mapM (fun s => new_Hypergeometric s 1 1 1) scope_list;
  set_params {| _n_out := length scope_list; nodes := leaves; scopes_out := scope_list |}
             N M n.

(** The loop of [marginalize] over [layer.nodes]: the nodes that remain. *)
Fixpoint remaining (nodes : list Hypergeometric) (marg_rvs : list nat) :
  list Hypergeometric :=
  match nodes with
  | [] => []
  | node :: rest =>
      match marginalize_node node marg_rvs with
      | Some marg_node => marg_node :: remaining rest marg_rvs
      | None => remaining rest marg_rvs
      end
  end.

Definition alloc (h : heap) (m : module) : nat * heap :=
  let a := fresh (dom h) in (a, <[a := m]> h).

(** [marginalize(layer, marg_rvs, prune)] on the layer at the address
    [layer]: the address of the module returned, or [None].  Both
    constructors build a new object.  The call is taken to be computed (no
    entry for the layer in the memo table of the dispatch context). *)
Definition marginalize (layer : nat) (marg_rvs : list nat) (prune : bool) (h : heap) :
  heap * result (option nat) :=
  match h !! layer with
  | Some (Layer self) =>
      let marg := remaining (nodes self) marg_rvs in
      let marg_scopes := map scope marg in
      let marg_params := map (fun nd => (N nd, M nd, n nd)) marg in
      if Nat.eqb (length marg_scopes) 0 then (h, Ok None)
      else if Nat.eqb (length marg_scopes) 1 && prune
      then
        match marg_scopes, marg_params with
        | s :: _, (node_N, node_M, node_n) :: _ =>
            match new_Hypergeometric s node_N node_M node_n with
            | Ok new_node =>
                let '(a, h') := alloc h (Node new_node) in (h', Ok (Some a))
            | Raise e => (h, Raise e)
            end
        | _, _ => (h, Raise IndexError)
        end
      else
        match new_HypergeometricLayer (Scopes marg_scopes)
                (Ints (map (fun q => fst (fst q)) marg_params))
                (Ints (map (fun q => snd (fst q)) marg_params))
                (Ints (map snd marg_params)) 1 with
        | Ok new_layer =>
            let '(a, h') := alloc h (Layer new_layer) in (h', Ok (Some a))
        | Raise e => (h, Raise e)
        end
  | _ => (h, Raise TypeError)
  end.

(** *** The invariant of a constructed layer *)

Definition valid_node (nd : Hypergeometric) : Prop :=
  valid_scope (scope nd) = true /\ valid_params (N nd) (M nd) (n nd) = true.

(** The random variable of a univariate node. *)
Definition rv_of (s : Scope) : nat := hd 0%nat (query s).

Record valid_layer (L : HypergeometricLayer) : Prop := {
  layer_nonempty : nodes L <> [];
  layer_n_out : _n_out L = length (nodes L);
  layer_scopes : scopes_out L = map scope (nodes L);
  layer_nodes : Forall valid_node (nodes L);
  layer_same_N :
    same_per_scope (map rv_of (scopes_out L)) (map N (nodes L)) = true;
  layer_same_M :
    same_per_scope (map rv_of (scopes_out L)) (map M (nodes L)) = true;
  layer_same_n :
    same_per_scope (map rv_of (scopes_out L)) (map n (nodes L)) = true
}.

Definition leaf_of (s : Scope) : Hypergeometric :=
  {| scope := s; N := 1; M := 1; n := 1 |}.

Lemma new_leaves_inv (ss : list Scope) :
  forall leaves,
    mapM (fun s => new_Hypergeometric s 1 1 1) ss = Ok leaves ->
    Forall (fun s => valid_scope s = true) ss /\ leaves = map leaf_of ss.
Proof.
  induction ss as [|s ss IH]; simpl; intros leaves H.
  - injection H as <-. split; [constructor | reflexivity].
  - unfold new_Hypergeometric at 1 in H.
    destruct (valid_scope s) eqn:Hs; [| discriminate]. simpl in H.
    destruct (mapM _ ss) as [ls|e]; [| discriminate]. simpl in H.
    injection H as <-. destruct (IH ls eq_refl) as [Hall ->].
    split; [constructor; assumption | reflexivity].
Qed.

Lemma new_leaves (ss : list Scope) :
  Forall (fun s => valid_scope s = true) ss ->
  mapM (fun s => new_Hypergeometric s 1 1 1) ss = Ok (map leaf_of ss).
Proof.
  induction 1 as [|s ss Hs _ IH]; simpl; [reflexivity |].
  unfold new_Hypergeometric at 1. rewrite Hs. simpl. rewrite IH. reflexivity.
Qed.

Lemma first_queries (ss : list Scope) :
  Forall (fun s => valid_scope s = true) ss ->
  mapM first_query ss = Ok (map rv_of ss).
Proof.
  induction 1 as [|s ss Hs _ IH]; simpl; [reflexivity |].
  unfold first_query at 1, rv_of at 1. unfold valid_scope in Hs.
  destruct (query s) as [|rv q]; [discriminate |]. simpl. rewrite IH. reflexivity.
Qed.

Lemma set_all_inv (Ns Ms ns : list Z) :
  forall (leaves nodes' : list Hypergeometric),
    length Ns = length leaves -> length Ms = length leaves ->
    length ns = length leaves ->
    set_all Ns Ms ns leaves = Ok nodes' ->
    map scope nodes' = map scope leaves /\ map N nodes' = Ns
    /\ map M nodes' = Ms /\ map n nodes' = ns
    /\ Forall (fun nd => valid_params (N nd) (M nd) (n nd) = true) nodes'.
Proof.
  revert Ms ns. induction Ns as [|vN Ns IH]; intros [|vM Ms] [|vn ns] [|leaf leaves] nodes'
    HN HM Hn H; simpl in *; try discriminate.
  - injection H as <-. repeat split; constructor.
  - unfold node_set_params at 1 in H.
    destruct (valid_params vN vM vn) eqn:Hv; [| discriminate]. simpl in H.
    destruct (set_all Ns Ms ns leaves) as [rest|e] eqn:Hrest; [| discriminate].
    simpl in H. injection H as <-.
    destruct (IH Ms ns leaves rest) as (Hs & HNs & HMs & Hns & Hall);
      [lia | lia | lia | exact Hrest |].
    simpl. rewrite Hs, HNs, HMs, Hns.
    repeat split; try reflexivity. constructor; [exact Hv | exact Hall].
Qed.

Lemma set_all_valid (nds : list Hypergeometric) :
  Forall valid_node nds ->
  set_all (map N nds) (map M nds) (map n nds) (map leaf_of (map scope nds)) = Ok nds.
Proof.
  induction 1 as [|nd nds [_ Hv] _ IH]; simpl; [reflexivity |].
  unfold node_set_params at 1. rewrite Hv. simpl. rewrite IH. simpl.
  destruct nd; reflexivity.
Qed.

Lemma as_tensor_inv (n_out : nat) (v : param) (t : list Z) :
  as_tensor n_out v = Ok t -> length t = n_out.
Proof.
  unfold as_tensor. destruct (Nat.eqb _ n_out) eqn:E; [| discriminate].
  intros H. injection H as <-. apply Nat.eqb_eq, E.
Qed.

Lemma as_tensor_list (l : list Z) : as_tensor (length l) (Ints l) = Ok l.
Proof. unfold as_tensor. rewrite Nat.eqb_refl. reflexivity. Qed.

(** The constructor establishes the invariant. *)
Lemma constructor_valid (sc : scopes) (vN vM vn : param) (n_nodes : Z)
    (L : HypergeometricLayer) :
  new_HypergeometricLayer sc vN vM vn n_nodes = Ok L -> valid_layer L.
Proof.
  unfold new_HypergeometricLayer. intros H.
  destruct (match sc with
            | OneScope s => if (n_nodes <? 1)%Z then Raise ValueError
                            else Ok (repeat s (Z.to_nat n_nodes))
            | Scopes l => if Nat.eqb (length l) 0 then Raise ValueError else Ok l
            end) as [scope_list|e] eqn:Hsc; [| discriminate].
  simpl in H.
  assert (Hne : scope_list <> []).
  { destruct sc as [s | l].
    - destruct (n_nodes <? 1)%Z eqn:E; [discriminate |]. injection Hsc as <-.
      apply Z.ltb_ge in E. destruct (Z.to_nat n_nodes) eqn:En; [lia | discriminate].
    - destruct l; [discriminate |]. injection Hsc as <-. discriminate. }
  destruct (mapM _ scope_list) as [leaves|e] eqn:Hleaves; [| discriminate].
  simpl in H. destruct (new_leaves_inv _ _ Hleaves) as [Hvalid ->].
  unfold set_params in H. simpl in H.
  destruct (as_tensor _ vN) as [Ns|e] eqn:HNs; [| discriminate]. simpl in H.
  destruct (as_tensor _ vM) as [Ms|e] eqn:HMs; [| discriminate]. simpl in H.
  destruct (as_tensor _ vn) as [ns|e] eqn:Hns; [| discriminate]. simpl in H.
  rewrite (first_queries _ Hvalid) in H. simpl in H.
  destruct (same_per_scope _ Ns && same_per_scope _ Ms && same_per_scope _ ns)
    eqn:Hsame; [| discriminate].
  simpl in H.
  destruct (set_all Ns Ms ns (map leaf_of scope_list)) as [nodes'|e] eqn:Hset;
    [| discriminate].
  simpl in H. injection H as <-.
  apply as_tensor_inv in HNs, HMs, Hns.
  destruct (set_all_inv Ns Ms ns (map leaf_of scope_list) nodes') as
    (Hs & HN' & HM' & Hn' & Hall); rewrite ?length_map; try assumption.
  rewrite map_map in Hs. simpl in Hs. rewrite map_id in Hs.
  apply andb_true_iff in Hsame. destruct Hsame as [Hsame Hsn].
  apply andb_true_iff in Hsame. destruct Hsame as [HsN HsM].
  constructor; simpl.
  - intros ->. simpl in Hs. apply Hne. symmetry. exact Hs.
  - rewrite <- (length_map scope nodes'), Hs. reflexivity.
  - symmetry. exact Hs.
  - rewrite <- Hs in Hvalid. clear - Hvalid Hall.
    induction Hall as [|nd nds Hv _ IH]; [constructor |].
    inversion Hvalid; subst. constructor; [split; assumption | apply IH; assumption].
  - rewrite HN'. exact HsN.
  - rewrite HM'. exact HsM.
  - rewrite Hn'. exact Hsn.
Qed.

(** A valid layer is what the constructor builds from its scopes and
    parameters. *)
Lemma rebuild (L : HypergeometricLayer) :
  valid_layer L ->
  new_HypergeometricLayer (Scopes (map scope (nodes L)))
    (Ints (map N (nodes L))) (Ints (map M (nodes L))) (Ints (map n (nodes L))) 1
  = Ok L.
Proof.
  intros [Hne Hout Hsc Hnodes HsN HsM Hsn].
  assert (Hvalid : Forall (fun s => valid_scope s = true) (map scope (nodes L))).
  { clear - Hnodes. induction Hnodes as [|nd nds [Hs _] _ IH]; simpl; constructor;
      assumption. }
  unfold new_HypergeometricLayer.
  destruct (nodes L) as [|nd nds] eqn:Hn; [contradiction |].
  rewrite <- Hn in *. assert (Hlen : Nat.eqb (length (map scope (nodes L))) 0 = false)
    by (rewrite Hn; reflexivity).
  rewrite Hlen. simpl bind. rewrite (new_leaves _ Hvalid). simpl bind.
  unfold set_params. simpl _n_out. simpl scopes_out. simpl nodes.
  rewrite !length_map.
  rewrite <- (length_map N (nodes L)) at 1. rewrite as_tensor_list. simpl bind.
  rewrite <- (length_map M (nodes L)) at 1. rewrite as_tensor_list. simpl bind.
  rewrite <- (length_map n (nodes L)) at 1. rewrite as_tensor_list. simpl bind.
  rewrite (first_queries _ Hvalid). simpl bind.
  rewrite <- Hsc, HsN, HsM, Hsn. simpl.
  rewrite Hsc, (set_all_valid _ Hnodes). simpl.
  destruct L as [k nds' ss]. simpl in *. subst. reflexivity.
Qed.

(** *** What [marginalize] returns *)

(** No variable of the node is removed; every variable of the node is
    removed. *)
Definition untouched (marg_rvs : list nat) (nd : Hypergeometric) : Prop :=
  forall rv, In rv (query (scope nd)) -> ~ In rv marg_rvs.

Definition removed (marg_rvs : list nat) (nd : Hypergeometric) : Prop :=
  forall rv, In rv (query (scope nd)) -> In rv marg_rvs.

Lemma existsb_eqb_In (rv : nat) (l : list nat) :
  existsb (Nat.eqb rv) l = true <-> In rv l.
Proof.
  rewrite existsb_exists. split.
  - intros (x & Hin & E). apply Nat.eqb_eq in E. subst. exact Hin.
  - intros H. exists rv. split; [exact H | apply Nat.eqb_refl].
Qed.

Lemma marginalize_node_untouched (marg_rvs : list nat) (nd : Hypergeometric) :
  valid_node nd -> untouched marg_rvs nd -> marginalize_node nd marg_rvs = Some nd.
Proof.
  intros [Hs _] Hun. unfold marginalize_node, valid_scope in *.
  destruct (query (scope nd)) as [|rv q] eqn:Hq; [discriminate |]. simpl.
  destruct (existsb (Nat.eqb rv) marg_rvs) eqn:E; [| reflexivity].
  exfalso. apply (Hun rv); [rewrite Hq; left; reflexivity | apply existsb_eqb_In, E].
Qed.

Lemma marginalize_node_removed (marg_rvs : list nat) (nd : Hypergeometric) :
  removed marg_rvs nd -> marginalize_node nd marg_rvs = None.
Proof.
  intros Hrem. unfold marginalize_node.
  replace (forallb _ (query (scope nd))) with true; [reflexivity |].
  symmetry. apply forallb_forall. intros rv Hin. apply existsb_eqb_In, Hrem, Hin.
Qed.

Lemma remaining_untouched (marg_rvs : list nat) (nds : list Hypergeometric) :
  Forall valid_node nds -> Forall (untouched marg_rvs) nds ->
  remaining nds marg_rvs = nds.
Proof.
  induction 1 as [|nd nds Hv _ IH]; intros Hun; simpl; [reflexivity |].
  inversion Hun; subst.
  rewrite (marginalize_node_untouched _ _ Hv) by assumption.
  f_equal. apply IH. assumption.
Qed.

Lemma remaining_removed (marg_rvs : list nat) (nds : list Hypergeometric) :
  Forall (removed marg_rvs) nds -> remaining nds marg_rvs = [].
Proof.
  induction 1 as [|nd nds Hr _ IH]; simpl; [reflexivity |].
  rewrite (marginalize_node_removed _ _ Hr). exact IH.
Qed.

Lemma remaining_app (marg_rvs : list nat) (l1 l2 : list Hypergeometric) :
  remaining (l1 ++ l2) marg_rvs = remaining l1 marg_rvs ++ remaining l2 marg_rvs.
Proof.
  induction l1 as [|nd l1 IH]; simpl; [reflexivity |].
  destruct (marginalize_node nd marg_rvs); simpl; rewrite IH; reflexivity.
Qed.

Lemma params_unzip (nds : list Hypergeometric) :
  map (fun q : Z * Z * Z => fst (fst q)) (map (fun nd => (N nd, M nd, n nd)) nds)
  = map N nds
  /\ map (fun q : Z * Z * Z => snd (fst q)) (map (fun nd => (N nd, M nd, n nd)) nds)
     = map M nds
  /\ map snd (map (fun nd => (N nd, M nd, n nd)) nds) = map n nds.
Proof.
  rewrite !map_map. repeat split; apply map_ext; reflexivity.
Qed.

Lemma new_node_valid (nd : Hypergeometric) :
  valid_node nd -> new_Hypergeometric (scope nd) (N nd) (M nd) (n nd) = Ok nd.
Proof.
  intros [Hs Hp]. unfold new_Hypergeometric, node_set_params. rewrite Hs, Hp.
  destruct nd; reflexivity.
Qed.

(** C2 (amended).  For a constructed layer at the address [layer]: when
    no variable of the layer is removed, [marginalize] returns a reference
    to a new object, which is a layer with the same scopes and parameters,
    or the single node of a one-node layer when [prune] is true; when every
    variable of the layer is removed it returns [None] and allocates
    nothing; when one node remains and [prune] is true it returns a
    reference to a new object that is this node. *)
Theorem marginalize_builds_anew (layer : nat) (L : HypergeometricLayer)
    (marg_rvs : list nat) (prune : bool) (h : heap) :
  h !! layer = Some (Layer L) ->
  valid_layer L ->
  (Forall (untouched marg_rvs) (nodes L) ->
     marginalize layer marg_rvs prune h
     = (<[fresh (dom h) :=
            match nodes L with
            | [nd] => if prune then Node nd else Layer L
            | _ => Layer L
            end]> h,
        Ok (Some (fresh (dom h))))
     /\ fresh (dom h) <> layer)
  /\ (Forall (removed marg_rvs) (nodes L) ->
      marginalize layer marg_rvs prune h = (h, Ok None))
  /\ (forall pre nd post,
        nodes L = pre ++ nd :: post ->
        Forall (removed marg_rvs) pre -> Forall (removed marg_rvs) post ->
        untouched marg_rvs nd ->
        marginalize layer marg_rvs true h
        = (<[fresh (dom h) := Node nd]> h, Ok (Some (fresh (dom h))))).
Proof.
  intros Hl HL. pose proof HL as [Hne Hout Hsc Hnodes HsN HsM Hsn].
  split; [| split].
  - intros Hun. split.
    + unfold marginalize. rewrite Hl.
      rewrite (remaining_untouched _ _ Hnodes Hun).
      destruct (params_unzip (nodes L)) as (-> & -> & ->).
      rewrite (rebuild L HL), length_map.
      destruct (nodes L) as [|nd [|nd' nds]] eqn:Hn; [contradiction | |].
      * simpl. destruct prune; simpl; [| reflexivity].
        inversion Hnodes; subst. rewrite (new_node_valid nd) by assumption.
        reflexivity.
      * reflexivity.
    + intros E. pose proof (is_fresh (dom h)) as Hf. apply Hf. rewrite E.
      apply elem_of_dom. eauto.
  - intros Hrem. unfold marginalize. rewrite Hl.
    rewrite (remaining_removed _ _ Hrem). reflexivity.
  - intros pre nd post Hsplit Hpre Hpost Hnd.
    unfold marginalize. rewrite Hl, Hsplit, remaining_app. simpl.
    rewrite (remaining_removed _ _ Hpre), (remaining_removed _ _ Hpost).
    assert (Hv : valid_node nd).
    { rewrite Forall_forall in Hnodes. apply Hnodes. rewrite Hsplit.
      apply list_elem_of_In, in_or_app. right. left. reflexivity. }
    rewrite (marginalize_node_untouched _ _ Hv Hnd). simpl.
    rewrite (new_node_valid nd Hv). reflexivity.
Qed.

(** Two layers of the tests' shape: two nodes over the variables 1 and
    0, and one node over the variable 1. *)
Definition scope_of (rv : nat) : Scope := {| query := [rv]; evidence := [] |}.

Definition two_nodes : HypergeometricLayer :=
  {| _n_out := 2;
     nodes := [ {| scope := scope_of 1; N := 5; M := 2; n := 3 |};
                {| scope := scope_of 0; N := 6; M := 2; n := 4 |} ];
     scopes_out := [scope_of 1; scope_of 0] |}.

Definition one_node : HypergeometricLayer :=
  {| _n_out := 1;
     nodes := [ {| scope := scope_of 1; N := 5; M := 2; n := 3 |} ];
     scopes_out := [scope_of 1] |}.

Lemma two_nodes_constructed :
  new_HypergeometricLayer (Scopes [scope_of 1; scope_of 0])
    (Ints [5; 6]%Z) (Int 2%Z) (Ints [3; 4]%Z) 1 = Ok two_nodes.
Proof. reflexivity. Qed.

Lemma one_node_constructed :
  new_HypergeometricLayer (OneScope (scope_of 1)) (Int 5%Z) (Int 2%Z) (Int 3%Z) 1
  = Ok one_node.
Proof. reflexivity. Qed.

Lemma marginalize_builds_anew_witness :
  marginalize 3 [2%nat] true {[ 3%nat := Layer two_nodes ]}
  = (<[4%nat := Layer two_nodes]> {[ 3%nat := Layer two_nodes ]}, Ok (Some 4%nat))
  /\ marginalize 3 [0; 1]%nat true {[ 3%nat := Layer two_nodes ]}
     = ({[ 3%nat := Layer two_nodes ]}, Ok None)
  /\ marginalize 3 [1%nat] true {[ 3%nat := Layer two_nodes ]}
     = (<[4%nat := Node {| scope := scope_of 0; N := 6; M := 2; n := 4 |}]>
          {[ 3%nat := Layer two_nodes ]},
        Ok (Some 4%nat)).
Proof.
  assert (Hl : ({[ 3%nat := Layer two_nodes ]} : heap) !! 3%nat = Some (Layer two_nodes))
    by reflexivity.
  pose proof (constructor_valid _ _ _ _ _ _ two_nodes_constructed) as HL.
  split; [| split].
  - destruct (marginalize_builds_anew 3 two_nodes [2%nat] true _ Hl HL)
      as ((H & _) & _ & _); [| exact H].
    constructor; [intros rv [<- | []] [E | []]; discriminate |].
    constructor; [intros rv [<- | []] [E | []]; discriminate |]. constructor.
  - destruct (marginalize_builds_anew 3 two_nodes [0; 1]%nat true _ Hl HL)
      as (_ & H & _).
    apply H.
    constructor; [intros rv [<- | []]; simpl; auto |].
    constructor; [intros rv [<- | []]; simpl; auto |]. constructor.
  - destruct (marginalize_builds_anew 3 two_nodes [1%nat] true _ Hl HL)
      as (_ & _ & H).
    apply (H [ {| scope := scope_of 1; N := 5; M := 2; n := 3 |} ] _ []).
    + reflexivity.
    + constructor; [intros rv [<- | []]; simpl; auto | constructor].
    + constructor.
    + intros rv [<- | []] [E | []]; discriminate.
Defined.

(** C2 (as stated, refuted).  The variable 2 is in the scope of neither
    layer.  On the layer of two nodes at the address 3 the call returns the
    address 4 of a new object, not the reference it was given; on the layer
    of one node, with [prune], the object returned is a plain node, not the
    layer. *)
Lemma marginalize_untouched_layer_is_rebuilt :
  snd (marginalize 3 [2%nat] true {[ 3%nat := Layer two_nodes ]}) = Ok (Some 4%nat)
  /\ snd (marginalize 3 [2%nat] true {[ 3%nat := Layer two_nodes ]}) <> Ok (Some 3%nat)
  /\ fst (marginalize 3 [2%nat] true {[ 3%nat := Layer one_node ]}) !! 4%nat
     = Some (Node {| scope := scope_of 1; N := 5; M := 2; n := 3 |})
  /\ snd (marginalize 3 [2%nat] true {[ 3%nat := Layer one_node ]}) = Ok (Some 4%nat).
Proof.
  repeat split; try reflexivity. discriminate.
Qed.

(** *** Further properties of the layer *)

(** [get_params]: the three tensors [self.N], [self.M], [self.n], read off
    the nodes. *)
Definition get_params (self : HypergeometricLayer) : list Z * list Z * list Z :=
  (map N (nodes self), map M (nodes self), map n (nodes self)).

(** The values an argument stands for in a layer of [n_out] nodes. *)
Definition values_of (n_out : nat) (v : param) : list Z :=
  match v with
  | Int z => repeat z n_out
  | Ints l => l
  end.

(** The scopes an argument stands for. *)
Definition scopes_of (sc : scopes) (n_nodes : Z) : list Scope :=
  match sc with
  | OneScope s => repeat s (Z.to_nat n_nodes)
  | Scopes l => l
  end.

Lemma as_tensor_values (n_out : nat) (v : param) (t : list Z) :
  as_tensor n_out v = Ok t -> t = values_of n_out v.
Proof.
  unfold as_tensor, values_of.
  destruct (Nat.eqb _ n_out); [| discriminate]. intros H. injection H as <-.
  reflexivity.
Qed.

(** What a successful construction has stored. *)
Lemma constructor_stores (sc : scopes) (vN vM vn : param) (n_nodes : Z)
    (L : HypergeometricLayer) :
  new_HypergeometricLayer sc vN vM vn n_nodes = Ok L ->
  scopes_out L = scopes_of sc n_nodes
  /\ _n_out L = length (scopes_of sc n_nodes)
  /\ map scope (nodes L) = scopes_of sc n_nodes
  /\ map N (nodes L) = values_of (_n_out L) vN
  /\ map M (nodes L) = values_of (_n_out L) vM
  /\ map n (nodes L) = values_of (_n_out L) vn.
Proof.
  unfold new_HypergeometricLayer. intros H.
  destruct (match sc with
            | OneScope s => if (n_nodes <? 1)%Z then Raise ValueError
                            else Ok (repeat s (Z.to_nat n_nodes))
            | Scopes l => if Nat.eqb (length l) 0 then Raise ValueError else Ok l
            end) as [scope_list|e] eqn:Hsc; [| discriminate].
  assert (Hlist : scope_list = scopes_of sc n_nodes).
  { destruct sc as [s | l]; simpl in *.
    - destruct (n_nodes <? 1)%Z; [discriminate |]. injection Hsc as <-. reflexivity.
    - destruct (Nat.eqb (length l) 0); [discriminate |]. injection Hsc as <-.
      reflexivity. }
  simpl in H.
  destruct (mapM _ scope_list) as [leaves|e] eqn:Hleaves; [| discriminate].
  simpl in H. destruct (new_leaves_inv _ _ Hleaves) as [Hvalid ->].
  unfold set_params in H. simpl in H.
  destruct (as_tensor _ vN) as [Ns|e] eqn:HNs; [| discriminate]. simpl in H.
  destruct (as_tensor _ vM) as [Ms|e] eqn:HMs; [| discriminate]. simpl in H.
  destruct (as_tensor _ vn) as [ns|e] eqn:Hns; [| discriminate]. simpl in H.
  rewrite (first_queries _ Hvalid) in H. simpl in H.
  destruct (same_per_scope _ Ns && same_per_scope _ Ms && same_per_scope _ ns);
    [| discriminate].
  simpl in H.
  destruct (set_all Ns Ms ns (map leaf_of scope_list)) as [nodes'|e] eqn:Hset;
    [| discriminate].
  simpl in H. injection H as <-. simpl.
  pose proof (as_tensor_values _ _ _ HNs) as EN.
  pose proof (as_tensor_values _ _ _ HMs) as EM.
  pose proof (as_tensor_values _ _ _ Hns) as En.
  apply as_tensor_inv in HNs, HMs, Hns.
  destruct (set_all_inv Ns Ms ns (map leaf_of scope_list) nodes') as
    (Hs & HN' & HM' & Hn' & _); rewrite ?length_map; try assumption.
  rewrite map_map in Hs. simpl in Hs. rewrite map_id in Hs.
  rewrite Hs, HN', HM', Hn', <- Hlist. repeat split; assumption.
Qed.

(** X11.  After a successful construction, [get_params] returns the
    parameters the constructor was given, one integer standing for as many
    copies as the layer has nodes, and the layer has one node and one
    output scope per scope it was given. *)
Theorem get_params_returns_constructor_arguments
    (sc : scopes) (vN vM vn : param) (n_nodes : Z) (L : HypergeometricLayer) :
  new_HypergeometricLayer sc vN vM vn n_nodes = Ok L ->
  get_params L
  = (values_of (_n_out L) vN, values_of (_n_out L) vM, values_of (_n_out L) vn)
  /\ scopes_out L = scopes_of sc n_nodes
  /\ _n_out L = length (scopes_of sc n_nodes)
  /\ length (nodes L) = _n_out L.
Proof.
  intros H. destruct (constructor_stores _ _ _ _ _ _ H) as (Hso & Hout & Hs & HN & HM & Hn).
  unfold get_params. rewrite HN, HM, Hn. repeat split; try assumption.
  rewrite <- (length_map scope (nodes L)), Hs, Hout. reflexivity.
Qed.

Lemma get_params_returns_constructor_arguments_witness :
  get_params two_nodes = ([5; 6]%Z, [2; 2]%Z, [3; 4]%Z).
Proof.
  destruct (get_params_returns_constructor_arguments _ _ _ _ _ _ two_nodes_constructed)
    as (H & _).
  exact H.
Defined.

(** The nodes over the same variable carry the same value of [f]. *)
Definition agree (f : Hypergeometric -> Z) (nds : list Hypergeometric) : Prop :=
  forall a b, In a nds -> In b nds ->
              rv_of (scope a) = rv_of (scope b) -> f a = f b.

Lemma select_nodes (f : Hypergeometric -> Z) (k : nat) (nds : list Hypergeometric) :
  select k (map rv_of (map scope nds)) (map f nds)
  = map f (List.filter (fun nd => Nat.eqb (rv_of (scope nd)) k) nds).
Proof.
  induction nds as [|nd nds IH]; simpl; [reflexivity |].
  destruct (Nat.eqb (rv_of (scope nd)) k); simpl; rewrite IH; reflexivity.
Qed.

Lemma all_equal_first_spec (vs : list Z) :
  all_equal_first vs = true <-> forall v w, In v vs -> In w vs -> v = w.
Proof.
  destruct vs as [|v0 vs]; simpl; [split; [intros _ v w [] | reflexivity] |].
  rewrite Z.eqb_refl. simpl. rewrite forallb_forall. split.
  - intros H v w Hv Hw.
    assert (E : forall u, v0 = u \/ In u vs -> v0 = u).
    { intros u [-> | Hu]; [reflexivity | apply Z.eqb_eq, H, Hu]. }
    rewrite <- (E v Hv), <- (E w Hw). reflexivity.
  - intros H u Hu. apply Z.eqb_eq. apply H; [left; reflexivity | right; exact Hu].
Qed.

Lemma same_per_scope_agree (f : Hypergeometric -> Z) (nds : list Hypergeometric) :
  same_per_scope (map rv_of (map scope nds)) (map f nds) = true <-> agree f nds.
Proof.
  unfold same_per_scope, agree. rewrite forallb_forall. split.
  - intros H a b Ha Hb Hab.
    assert (Hk : In (rv_of (scope a)) (map rv_of (map scope nds))).
    { apply in_map, in_map, Ha. }
    specialize (H _ Hk). rewrite select_nodes in H.
    apply (proj1 (all_equal_first_spec _)) with (v := f a) (w := f b) in H;
      [exact H | |]; apply in_map, filter_In; split; try assumption.
    + apply Nat.eqb_refl.
    + apply Nat.eqb_eq. symmetry. exact Hab.
  - intros H k Hk. rewrite select_nodes. apply all_equal_first_spec.
    intros v w Hv Hw.
    apply in_map_iff in Hv. destruct Hv as (a & <- & Ha).
    apply in_map_iff in Hw. destruct Hw as (b & <- & Hb).
    apply filter_In in Ha, Hb. destruct Ha as [Ha Ea], Hb as [Hb Eb].
    apply Nat.eqb_eq in Ea, Eb. apply H; congruence.
Qed.

(** X12.  In a constructed layer, two nodes over the same random variable
    have the same three parameters: a construction with conflicting values
    for one variable does not return a layer. *)
Theorem constructed_nodes_agree_per_scope
    (sc : scopes) (vN vM vn : param) (n_nodes : Z) (L : HypergeometricLayer) :
  new_HypergeometricLayer sc vN vM vn n_nodes = Ok L ->
  forall a b, In a (nodes L) -> In b (nodes L) ->
              rv_of (scope a) = rv_of (scope b) ->
              N a = N b /\ M a = M b /\ n a = n b.
Proof.
  intros H. destruct (constructor_valid _ _ _ _ _ _ H)
    as [Hne Hout Hsc Hnodes HsN HsM Hsn].
  rewrite Hsc in HsN, HsM, Hsn.
  apply same_per_scope_agree in HsN, HsM, Hsn.
  intros a b Ha Hb Hab. repeat split; [apply HsN | apply HsM | apply Hsn]; assumption.
Qed.

Definition same_scope_twice : HypergeometricLayer :=
  {| _n_out := 2;
     nodes := [ {| scope := scope_of 0; N := 5; M := 2; n := 3 |};
                {| scope := scope_of 0; N := 5; M := 2; n := 3 |} ];
     scopes_out := [scope_of 0; scope_of 0] |}.

Lemma constructed_nodes_agree_per_scope_witness :
  new_HypergeometricLayer (OneScope (scope_of 0)) (Int 5%Z) (Int 2%Z) (Int 3%Z) 2
  = Ok same_scope_twice
  /\ (forall a b, In a (nodes same_scope_twice) -> In b (nodes same_scope_twice) ->
                  rv_of (scope a) = rv_of (scope b) ->
                  N a = N b /\ M a = M b /\ n a = n b)
  /\ new_HypergeometricLayer (Scopes [scope_of 0; scope_of 0])
       (Ints [5; 6]%Z) (Int 2%Z) (Int 3%Z) 1 = Raise ValueError.
Proof.
  assert (H : new_HypergeometricLayer (OneScope (scope_of 0)) (Int 5%Z) (Int 2%Z)
                (Int 3%Z) 2 = Ok same_scope_twice) by reflexivity.
  split; [exact H |]. split; [| reflexivity].
  exact (constructed_nodes_agree_per_scope _ _ _ _ _ _ H).
Defined.

(** The layer of the nodes [nds]. *)
Definition layer_of (nds : list Hypergeometric) : HypergeometricLayer :=
  {| _n_out := length nds; nodes := nds; scopes_out := map scope nds |}.

Lemma remaining_incl (marg_rvs : list nat) (nds : list Hypergeometric) :
  incl (remaining nds marg_rvs) nds.
Proof.
  induction nds as [|nd nds IH]; simpl; [apply incl_refl |].
  unfold marginalize_node.
  destruct (forallb _ (query (scope nd))).
  - apply incl_tl, IH.
  - apply incl_cons; [left; reflexivity | apply incl_tl, IH].
Qed.

Lemma layer_of_valid (nds sub : list Hypergeometric) :
  valid_layer (layer_of nds) -> incl sub nds -> sub <> [] ->
  valid_layer (layer_of sub).
Proof.
  intros [Hne Hout Hsc Hnodes HsN HsM Hsn] Hincl Hsub. simpl in *.
  apply same_per_scope_agree in HsN, HsM, Hsn.
  constructor; simpl; try reflexivity; try assumption.
  - apply Forall_forall. intros nd Hnd. rewrite Forall_forall in Hnodes.
    apply Hnodes. apply list_elem_of_In, Hincl, list_elem_of_In, Hnd.
  - apply same_per_scope_agree. intros a b Ha Hb. apply HsN; apply Hincl; assumption.
  - apply same_per_scope_agree. intros a b Ha Hb. apply HsM; apply Hincl; assumption.
  - apply same_per_scope_agree. intros a b Ha Hb. apply Hsn; apply Hincl; assumption.
Qed.

Lemma valid_layer_is_layer_of (L : HypergeometricLayer) :
  valid_layer L -> L = layer_of (nodes L).
Proof.
  intros [_ Hout Hsc _ _ _ _]. destruct L as [k nds ss]. simpl in *. subst.
  reflexivity.
Qed.

(** X13.  On a constructed layer [marginalize] does not raise: it returns
    [None] when no node remains; with [prune] and one node remaining, a new
    object that is this node; otherwise a new object that is the layer of
    the remaining nodes, with their scopes and parameters.  The layer it
    was given is left as it was. *)
Theorem marginalize_returns_remaining_nodes (layer : nat) (L : HypergeometricLayer)
    (marg_rvs : list nat) (prune : bool) (h : heap) :
  h !! layer = Some (Layer L) ->
  valid_layer L ->
  marginalize layer marg_rvs prune h
  = match remaining (nodes L) marg_rvs with
    | [] => (h, Ok None)
    | [nd] =>
        (<[fresh (dom h) := if prune then Node nd else Layer (layer_of [nd])]> h,
         Ok (Some (fresh (dom h))))
    | nds => (<[fresh (dom h) := Layer (layer_of nds)]> h, Ok (Some (fresh (dom h))))
    end
  /\ fst (marginalize layer marg_rvs prune h) !! layer = Some (Layer L)
  /\ incl (remaining (nodes L) marg_rvs) (nodes L).
Proof.
  intros Hl HL.
  assert (Hrun : marginalize layer marg_rvs prune h
                 = match remaining (nodes L) marg_rvs with
                   | [] => (h, Ok None)
                   | [nd] =>
                       (<[fresh (dom h) :=
                            if prune then Node nd else Layer (layer_of [nd])]> h,
                        Ok (Some (fresh (dom h))))
                   | nds => (<[fresh (dom h) := Layer (layer_of nds)]> h,
                             Ok (Some (fresh (dom h))))
                   end).
  { unfold marginalize. rewrite Hl.
    pose proof (remaining_incl marg_rvs (nodes L)) as Hincl.
    destruct (remaining (nodes L) marg_rvs) as [|nd rest] eqn:Hrem; [reflexivity |].
    assert (Hsub : valid_layer (layer_of (nd :: rest))).
    { apply (layer_of_valid (nodes L)); [| exact Hincl | discriminate].
      rewrite <- (valid_layer_is_layer_of L HL). exact HL. }
    pose proof (rebuild _ Hsub) as Hre. simpl nodes in Hre.
    destruct (params_unzip (nd :: rest)) as (-> & -> & ->).
    rewrite Hre, length_map.
    destruct rest as [|nd' rest]; [| reflexivity].
    simpl. destruct prune; simpl; [| reflexivity].
    destruct Hsub as [_ _ _ Hnodes _ _ _]. simpl in Hnodes.
    inversion Hnodes; subst. rewrite (new_node_valid nd) by assumption.
    reflexivity. }
  split; [exact Hrun |]. split; [| apply remaining_incl].
  rewrite Hrun.
  assert (Hfresh : fresh (dom h) <> layer).
  { intros E. apply (is_fresh (dom h)). rewrite E. apply elem_of_dom. eauto. }
  destruct (remaining (nodes L) marg_rvs) as [|nd [|nd' rest]]; simpl;
    [exact Hl | |]; rewrite lookup_insert_ne by exact Hfresh; exact Hl.
Qed.

Lemma marginalize_returns_remaining_nodes_witness :
  marginalize 3 [1%nat] false {[ 3%nat := Layer two_nodes ]}
  = (<[4%nat := Layer (layer_of [ {| scope := scope_of 0; N := 6; M := 2; n := 4 |} ])]>
       {[ 3%nat := Layer two_nodes ]},
     Ok (Some 4%nat)).
Proof.
  assert (Hl : ({[ 3%nat := Layer two_nodes ]} : heap) !! 3%nat = Some (Layer two_nodes))
    by reflexivity.
  pose proof (constructor_valid _ _ _ _ _ _ two_nodes_constructed) as HL.
  destruct (marginalize_returns_remaining_nodes 3 two_nodes [1%nat] false _ Hl HL)
    as (H & _).
  exact H.
Defined.

End HypergeometricLayers.

(** ** Log-likelihood of sum nodes and sum layers *)

Module LayerInference.

Section Inference.

(** The floats of the backend and the three operations the sums use: the
    logarithm of a weight, the addition, and the log-sum-exp of a row.
    Nothing is assumed about them. *)
Variable F : Type.
Variable log : F -> F.
Variable add : F -> F -> F.
Variable logsumexp : list F -> F.

(** A module: a leaf with its log-density on a row of data, a sum node
    with one weight per input, a sum layer with one row of weights per
    output. *)
Inductive Module : Type :=
| Leaf (log_density : list F -> F)
| SumNode (children : list Module) (weights : list F)
| SumLayer (children : list Module) (weights : list (list F)).

(** [log(weight_j) + child_log_likelihood_j], input by input. *)
Fixpoint weighted (child_lls weights : list F) : list F :=
  match child_lls, weights with
  | ll :: lls, w :: ws => add ll (log w) :: weighted lls ws
  | _, _ => []
  end.

(** Modelled from the spec: [log_likelihood] of the torch backend on one
    row of the batch, one entry per output of the module (the inference
    modules for nodes and layers are not among the sources).  "SumNode /
    SumLayer: log-sum-exp of log(weight_j) + child_log_likelihood_j across
    children"; the log-likelihoods of the children are laid side by side. *)
Fixpoint log_likelihood_row (m : Module) (row : list F) : list F :=
  let inputs (children : list Module) : list F :=
    (fix side_by_side (l : list Module) : list F :=
       match l with
       | [] => []
       | c :: l' => log_likelihood_row c row ++ side_by_side l'
       end) children in
  match m with
  | Leaf log_density => [log_density row]
  | SumNode children weights => [logsumexp (weighted (inputs children) weights)]
  | SumLayer children weights =>
      map (fun w => logsumexp (weighted (inputs children) w)) weights
  end.

(** [log_likelihood(module, data)]: one row of outputs per row of data. *)
Definition log_likelihood (m : Module) (data : list (list F)) : list (list F) :=
  map (log_likelihood_row m) data.

(** The explicit tree of a layer: one sum node per row of weights, over
    the same children. *)
Definition nodes_of_layer (children : list Module) (weights : list (list F)) :
  list Module :=
  map (SumNode children) weights.

(** The log-likelihoods of a list of modules side by side. *)
Definition side_by_side (ms : list Module) (row : list F) : list F :=
  concat (map (fun m => log_likelihood_row m row) ms).

Lemma inputs_side_by_side (ms : list Module) (row : list F) :
  (fix side_by_side (l : list Module) : list F :=
     match l with
     | [] => []
     | c :: l' => log_likelihood_row c row ++ side_by_side l'
     end) ms
  = side_by_side ms row.
Proof.
  unfold side_by_side. induction ms as [|m ms IH]; simpl; [reflexivity |].
  rewrite IH. reflexivity.
Qed.

Lemma sum_layer_row (children : list Module) (weights : list (list F))
    (row : list F) :
  log_likelihood_row (SumLayer children weights) row
  = side_by_side (nodes_of_layer children weights) row.
Proof.
  unfold side_by_side, nodes_of_layer. simpl.
  induction weights as [|w ws IH]; simpl; [reflexivity |].
  rewrite IH. reflexivity.
Qed.

(** Float literals. *)
Variable lit : Q -> F.

(** The two circuits of [test_sum_layer_likelihood] over three leaves. *)
Definition layer_spn (g1 g2 g3 : list F -> F) : Module :=
  SumNode
    [SumLayer [Leaf g1; Leaf g2; Leaf g3]
       [ [lit (8 # 10); lit (1 # 10); lit (1 # 10)];
         [lit (2 # 10); lit (3 # 10); lit (5 # 10)];
         [lit (2 # 10); lit (7 # 10); lit (1 # 10)] ]]
    [lit (3 # 10); lit (4 # 10); lit (3 # 10)].

Definition nodes_spn (g1 g2 g3 : list F -> F) : Module :=
  SumNode
    [SumNode [Leaf g1; Leaf g2; Leaf g3] [lit (8 # 10); lit (1 # 10); lit (1 # 10)];
     SumNode [Leaf g1; Leaf g2; Leaf g3] [lit (2 # 10); lit (3 # 10); lit (5 # 10)];
     SumNode [Leaf g1; Leaf g2; Leaf g3] [lit (2 # 10); lit (7 # 10); lit (1 # 10)]]
    [lit (3 # 10); lit (4 # 10); lit (3 # 10)].

(** C1.  On every batch a sum layer gives, output for output, the
    log-likelihoods of the sum nodes over the same children and rows of
    weights, alone and as the input of an outer sum node; in particular the
    two circuits of the test agree, on the rows [1.0], [0.0], [0.25] as on
    any other. *)
Theorem sum_layer_equals_sum_nodes :
  (forall children weights data,
      log_likelihood (SumLayer children weights) data
      = map (side_by_side (nodes_of_layer children weights)) data)
  /\ (forall children weights outer data,
        log_likelihood (SumNode [SumLayer children weights] outer) data
        = log_likelihood (SumNode (nodes_of_layer children weights) outer) data)
  /\ (forall g1 g2 g3 data,
        log_likelihood (layer_spn g1 g2 g3) data
        = log_likelihood (nodes_spn g1 g2 g3) data)
  /\ (forall g1 g2 g3,
        log_likelihood (layer_spn g1 g2 g3) [[lit 1]; [lit 0]; [lit (25 # 100)]]
        = log_likelihood (nodes_spn g1 g2 g3) [[lit 1]; [lit 0]; [lit (25 # 100)]]).
Proof.
  assert (Hnested : forall children weights outer data,
             log_likelihood (SumNode [SumLayer children weights] outer) data
             = log_likelihood (SumNode (nodes_of_layer children weights) outer) data).
  { intros children weights outer data. unfold log_likelihood.
    apply map_ext. intros row.
    change (log_likelihood_row (SumNode [SumLayer children weights] outer) row)
      with [logsumexp (weighted
              (log_likelihood_row (SumLayer children weights) row ++ []) outer)].
    rewrite app_nil_r, sum_layer_row.
    simpl. rewrite inputs_side_by_side. reflexivity. }
  split; [| split; [exact Hnested | split]].
  - intros children weights data. unfold log_likelihood.
    apply map_ext. intros row. apply sum_layer_row.
  - intros g1 g2 g3 data. apply Hnested.
  - intros g1 g2 g3. apply Hnested.
Qed.

End Inference.

End LayerInference.
